(** * speedy-vision: keypoint detector nodes and the keypoint encoder

    A shallow embedding of

    - [src/core/pipeline/nodes/keypoints/detectors/detector.js]
      (classes [SpeedyPipelineNodeKeypointDetector] and
      [SpeedyPipelineNodeMultiscaleKeypointDetector]),
    - [src/core/speedy-keypoint.js] (class [SpeedyKeypoint]),
    - [src/gpu/kernels/shaders/identity.js] (the identity shader),

    followed by the properties of the specification that concern them.

    Part I holds the program, Part II the properties. *)

From Stdlib Require Import ZArith QArith Reals Lia Lra String.
From stdpp Require Import base option list gmap.

Local Open Scope Z_scope.

(* ================================================================== *)
(** * Part I: the program                                              *)
(* ================================================================== *)

(** ** JavaScript numbers

    A JavaScript number is an IEEE-754 double: NaN, one of the two
    infinities, or a finite dyadic rational.  The operations the setters
    of the detector nodes apply to their argument ([| 0], [Math.min],
    [Math.max], unary [+]) are exact on doubles, so a finite number is
    kept as the rational it denotes. *)
Module JS.

Inductive number : Type :=
| NaN
| PosInfinity
| NegInfinity
| Finite (q : Q).

Definition of_Z (z : Z) : number := Finite (inject_Z z).

(** [truncate(x)]: the integer part of [x], rounding towards zero. *)
Definition truncate (q : Q) : Z := Z.quot (Qnum q) (Z.pos (Qden q)).

(** ECMAScript's [ToInt32]: NaN and the infinities go to 0; a finite
    number is truncated, reduced modulo 2^32 and read as a signed
    32-bit integer. *)
Definition ToInt32 (v : number) : Z :=
  match v with
  | Finite q =>
      let int := truncate q in
      let int32bit := int mod 2 ^ 32 in
      if 2 ^ 31 <=? int32bit then int32bit - 2 ^ 32 else int32bit
  | _ => 0
  end.

(** [a | b]: both operands go through [ToInt32]; the result is the
    bitwise or of the two 32-bit integers. *)
Definition bitor (a b : number) : Z := Z.lor (ToInt32 a) (ToInt32 b).

(** Unary [+] applied to a number is the identity. *)
Definition unary_plus (v : number) : number := v.

(** [Math.max] and [Math.min] of two numbers: NaN if either is NaN. *)
Definition Math_max (a b : number) : number :=
  match a, b with
  | NaN, _ | _, NaN => NaN
  | PosInfinity, _ | _, PosInfinity => PosInfinity
  | NegInfinity, x | x, NegInfinity => x
  | Finite p, Finite q => if Qle_bool p q then Finite q else Finite p
  end.

Definition Math_min (a b : number) : number :=
  match a, b with
  | NaN, _ | _, NaN => NaN
  | NegInfinity, _ | _, NegInfinity => NegInfinity
  | PosInfinity, x | x, PosInfinity => x
  | Finite p, Finite q => if Qle_bool p q then Finite p else Finite q
  end.

(** [lo <= v <= hi] for a number [v] and rational bounds; no NaN and
    no infinity lies in a bounded interval. *)
Definition within (lo hi : Q) (v : number) : Prop :=
  match v with
  | Finite q => (lo <= q)%Q /\ (q <= hi)%Q
  | _ => False
  end.

(** [v < 0] and [bound < v] as JavaScript compares numbers: every
    comparison with NaN is false. *)
Definition negative (v : number) : Prop :=
  match v with
  | NegInfinity => True
  | Finite q => (q < 0)%Q
  | _ => False
  end.

Definition above (bound : Z) (v : number) : Prop :=
  match v with
  | PosInfinity => True
  | Finite q => (inject_Z bound < q)%Q
  | _ => False
  end.

(** [v] lies strictly between [-2^31 - 1] and [2^31]: its integer part
    is a signed 32-bit integer. *)
Definition in_int32_range (v : number) : Prop :=
  match v with
  | Finite q => (inject_Z (- 2 ^ 31 - 1) < q)%Q /\ (q < inject_Z (2 ^ 31))%Q
  | _ => False
  end.

(** "32-bit integer truncation" as the specification words it: the
    fraction is dropped, the low 32 bits are kept and read in two's
    complement; a value that is not finite gives 0. *)
Definition trunc32 (v : number) : Z :=
  match v with
  | Finite q =>
      let low := Z.land (truncate q) (Z.ones 32) in
      if Z.testbit low 31 then low - 2 ^ 32 else low
  | _ => 0
  end.

(** Integer operators on 32-bit operands: [a << b], [a >>> b], [a & b]. *)
Definition wrap32 (z : Z) : Z :=
  let u := z mod 2 ^ 32 in if 2 ^ 31 <=? u then u - 2 ^ 32 else u.

Definition shl (a b : Z) : Z := wrap32 (Z.shiftl a (b mod 32)).
Definition ushr (a b : Z) : Z := Z.shiftr (a mod 2 ^ 32) (b mod 32).
Definition bitand (a b : Z) : Z := Z.land (wrap32 a) (wrap32 b).

End JS.

Import JS.

(** ** Constants of [utils/globals.js]

    [detector.js] imports [MIN_KEYPOINT_SIZE], [MIN_ENCODER_LENGTH] and
    [MAX_ENCODER_CAPACITY]; their values are parameters of the
    development. *)
Class Globals : Type := {
  MIN_KEYPOINT_SIZE : Z;
  MIN_ENCODER_LENGTH : Z;
  MAX_ENCODER_CAPACITY : Z
}.

(** The values the comment on [DEFAULT_CAPACITY] is consistent with
    (a 64x64 texture with 2 pixels per keypoint holds 2048 keypoints). *)
Definition sample_globals : Globals :=
  {| MIN_KEYPOINT_SIZE := 8; MIN_ENCODER_LENGTH := 2; MAX_ENCODER_CAPACITY := 8192 |}.

(** ** Constants of [detector.js] *)
Definition ENCODER_PASSES : Z := 4.
Definition LONG_SKIP_OFFSET_PASSES : Z := 2.
Definition MAX_CAPACITY `{Globals} : Z := MAX_ENCODER_CAPACITY.
Definition DEFAULT_CAPACITY : Z := 2048.
Definition DEFAULT_SCALE_FACTOR : number := Finite (14142135623730951 # 10000000000000000).
Definition NUMBER_OF_INTERNAL_TEXTURES : nat := 5.

(** ** Sizing of the encoder (static methods)

    The arguments are counts of bytes and of keypoints: integers, far
    below 2^53, on which the double arithmetic of the source is exact.
    [Math.ceil(a / b)] and [Math.floor(a / b)] for a positive divisor,
    and [Math.ceil(Math.sqrt(n))], are computed on integers. *)
Definition ceil_div (a b : Z) : Z := - ((- a) / b).
Definition floor_div (a b : Z) : Z := a / b.
Definition ceil_sqrt (n : Z) : Z := Z.sqrt_up n.

Section Sizing.
Context `{Globals}.

Definition pixelsPerKeypoint (descriptorSize extraSize : Z) : Z :=
  ceil_div (MIN_KEYPOINT_SIZE + descriptorSize + extraSize) 4.

Definition encoderLength (encoderCapacity descriptorSize extraSize : Z) : Z :=
  let pixelsPerKeypoint := ceil_div (MIN_KEYPOINT_SIZE + descriptorSize + extraSize) 4 in
  let numberOfPixels := encoderCapacity * pixelsPerKeypoint in
  Z.max MIN_ENCODER_LENGTH (ceil_sqrt numberOfPixels).

Definition encoderCapacity (descriptorSize extraSize encoderLength : Z) : Z :=
  let pixelsPerKeypoint := ceil_div (MIN_KEYPOINT_SIZE + descriptorSize + extraSize) 4 in
  let numberOfPixels := encoderLength * encoderLength in
  floor_div numberOfPixels pixelsPerKeypoint.

End Sizing.

(** The sizing formulas as the specification writes them, over the
    real numbers. *)
Module SizingSpec.
Section SizingSpec.
Context `{Globals}.

Definition pixelsPerKeypoint (descriptorSize extraSize : Z) : Z :=
  Zceil ((IZR MIN_KEYPOINT_SIZE + IZR descriptorSize + IZR extraSize) / 4).

Definition encoderLength (capacity descriptorSize extraSize : Z) : Z :=
  Z.max MIN_ENCODER_LENGTH
        (Zceil (sqrt (IZR capacity * IZR (pixelsPerKeypoint descriptorSize extraSize)))).

End SizingSpec.
End SizingSpec.

(** ** [SpeedyKeypoint] ([speedy-keypoint.js])

    Coordinates, level of detail, rotation and score are numbers read as
    the real numbers they denote; [Math.pow(2, lod)] is the real power. *)
Module SpeedyKeypoint.
Section SpeedyKeypoint.

(** [SpeedyKeypointDescriptor] is defined outside of these sources; the
    keypoint only stores a reference to it. *)
Variable SpeedyKeypointDescriptor : Type.

(** Modelled from the spec: [SpeedyPoint2] ([speedy-point.js] is not among
    the sources).  Section 3 makes [x] and [y] fields of the keypoint
    record; the point is the pair of them, built from two numbers and read
    through [.x] and [.y]. *)
Record SpeedyPoint2 : Type := new_SpeedyPoint2 { point_x : R; point_y : R }.

Record SpeedyKeypoint : Type := {
  _position : SpeedyPoint2;
  _lod : R;
  _rotation : R;
  _score : R;
  _descriptor : option SpeedyKeypointDescriptor
}.

Definition Math_pow (base exponent : R) : R := Rpower base exponent.

(** [constructor(x, y, lod = 0.0, rotation = 0.0, score = 0.0, descriptor = null)];
    an omitted optional argument is [None].  The unary [+] the constructor
    applies to its numeric arguments is the identity on numbers. *)
Definition new (x y : R) (lod rotation score : option R)
    (descriptor : option SpeedyKeypointDescriptor) : SpeedyKeypoint :=
  let lod := default 0%R lod in
  let rotation := default 0%R rotation in
  let score := default 0%R score in
  {| _position := new_SpeedyPoint2 x y;
     _lod := lod;
     _rotation := rotation;
     _score := score;
     _descriptor := descriptor |}.

Definition position (this : SpeedyKeypoint) : SpeedyPoint2 := _position this.
Definition x (this : SpeedyKeypoint) : R := point_x (_position this).
Definition y (this : SpeedyKeypoint) : R := point_y (_position this).
Definition lod (this : SpeedyKeypoint) : R := _lod this.
Definition scale (this : SpeedyKeypoint) : R := Math_pow 2 (_lod this).
Definition rotation (this : SpeedyKeypoint) : R := _rotation this.
Definition score (this : SpeedyKeypoint) : R := _score this.
Definition descriptor (this : SpeedyKeypoint) : option SpeedyKeypointDescriptor :=
  _descriptor this.

End SpeedyKeypoint.

Arguments new {SpeedyKeypointDescriptor} x y lod rotation score descriptor.
Arguments position {SpeedyKeypointDescriptor} this.
Arguments x {SpeedyKeypointDescriptor} this.
Arguments y {SpeedyKeypointDescriptor} this.
Arguments lod {SpeedyKeypointDescriptor} this.
Arguments scale {SpeedyKeypointDescriptor} this.
Arguments rotation {SpeedyKeypointDescriptor} this.
Arguments score {SpeedyKeypointDescriptor} this.
Arguments descriptor {SpeedyKeypointDescriptor} this.

End SpeedyKeypoint.

(** ** The GPU: textures, WebGL texture parameters, programs, the pool

    The sources use these through [gpu], [gl] and the texture objects;
    the classes themselves ([SpeedyGPU], [SpeedyTexture], [SpeedyProgram],
    the texture pool) are not among the sources.  The state of the GPU is
    threaded through every operation; an operation either returns a value
    and the next state or throws. *)
Module GPU.

(** A texture object is known by its WebGL handle ([texture.glTexture]). *)
Definition texid : Type := positive.

(** An RGBA pixel, one byte per channel. *)
Record pixel : Type := RGBA { red : Z; green : Z; blue : Z; alpha : Z }.

(** The sampling parameters WebGL keeps for every texture. *)
Record sampling : Type := {
  mag_filter : Z;
  min_filter : Z;
  wrap_s : Z;
  wrap_t : Z
}.

Record texture : Type := {
  width : Z;
  height : Z;
  data : Z -> Z -> pixel;
  params : sampling
}.

(** [WebGLRenderingContext] constants. *)
Definition TEXTURE_2D : Z := 3553.
Definition TEXTURE_MAG_FILTER : Z := 10240.
Definition TEXTURE_MIN_FILTER : Z := 10241.
Definition TEXTURE_WRAP_S : Z := 10242.
Definition TEXTURE_WRAP_T : Z := 10243.
Definition REPEAT : Z := 10497.
Definition CLAMP_TO_EDGE : Z := 33071.
Definition NEAREST : Z := 9728.

Definition get_param (s : sampling) (pname : Z) : option Z :=
  if pname =? TEXTURE_MAG_FILTER then Some (mag_filter s)
  else if pname =? TEXTURE_MIN_FILTER then Some (min_filter s)
  else if pname =? TEXTURE_WRAP_S then Some (wrap_s s)
  else if pname =? TEXTURE_WRAP_T then Some (wrap_t s)
  else None.

Definition set_param (s : sampling) (pname param : Z) : option sampling :=
  if pname =? TEXTURE_MAG_FILTER then
    Some {| mag_filter := param; min_filter := min_filter s; wrap_s := wrap_s s; wrap_t := wrap_t s |}
  else if pname =? TEXTURE_MIN_FILTER then
    Some {| mag_filter := mag_filter s; min_filter := param; wrap_s := wrap_s s; wrap_t := wrap_t s |}
  else if pname =? TEXTURE_WRAP_S then
    Some {| mag_filter := mag_filter s; min_filter := min_filter s; wrap_s := param; wrap_t := wrap_t s |}
  else if pname =? TEXTURE_WRAP_T then
    Some {| mag_filter := mag_filter s; min_filter := min_filter s; wrap_s := wrap_s s; wrap_t := param |}
  else None.

(** A texture with its horizontal wrap mode replaced. *)
Definition with_wrap_s (image : texture) (param : Z) : texture :=
  {| width := width image; height := height image; data := data image;
     params := {| mag_filter := mag_filter (params image);
                  min_filter := min_filter (params image);
                  wrap_s := param;
                  wrap_t := wrap_t (params image) |} |}.

(** The programs [detector.js] reaches through [gpu.programs.utils] and
    [gpu.programs.keypoints]. *)
Inductive program : Type :=
| identity
| encodeKeypointSkipOffsets
| encodeKeypointLongSkipOffsets
| encodeKeypointPositions
| encodeKeypointProperties
| encodeNullKeypoints
| initLookupOfLocations
| computeLookupOfLocations
| initSumTable
| computeSumTable.

#[global] Instance program_eq_dec : EqDecision program.
Proof. solve_decision. Defined.

(** Arguments of a program call as the caller writes them, and as the
    kernel sees them (a texture argument is sampled from its contents). *)
Inductive arg : Type :=
| Tex (t : texid)
| Num (z : Z)
| Vec2 (a b : Z).

Inductive karg : Type :=
| KTex (t : texture)
| KNum (z : Z)
| KVec2 (a b : Z).

(** What a kernel computes for the output pixel at [(x, y)]. *)
Definition kernel : Type := list karg -> Z -> Z -> pixel.

(** The output configuration of a program: [outputs(width, height, ...textures)]
    and the index of the texture the next call writes. *)
Record config : Type := {
  out_width : Z;
  out_height : Z;
  out_textures : list texid;
  out_index : nat
}.

Inductive event : Type :=
| TexParameteri (t : texid) (pname param : Z)
| PoolAllocate (t : texid)
| PoolFree (t : texid)
| Run (p : program) (args : list arg) (out : texid)
| Clear (t : texid) (r g b a : Z)
| Resize (t : texid) (w h : Z).

Record gpu : Type := {
  textures : gmap texid texture;
  bound : option texid;
  pool : list texid;
  programs : program -> option config;
  log : list event
}.

Inductive result (A : Type) : Type :=
| Ok (a : A)
| Throw (error : string).
Arguments Ok {A} a.
Arguments Throw {A} error.

Definition M (A : Type) : Type := gpu -> result (A * gpu).

#[global] Instance gpu_ret : MRet M := fun A a g => Ok (a, g).

#[global] Instance gpu_bind : MBind M := fun A B k m g =>
  match m g with
  | Ok (a, g') => k a g'
  | Throw e => Throw e
  end.

Definition throw {A : Type} (e : string) : M A := fun _ => Throw e.

Definition get : M gpu := fun g => Ok (g, g).

(** [returns m g Q]: from the state [g], [m] does not throw, and its
    value and final state satisfy [Q]. *)
Definition returns {A : Type} (m : M A) (g : gpu) (Q : A -> gpu -> Prop) : Prop :=
  match m g with
  | Ok (a, g') => Q a g'
  | Throw _ => False
  end.

(** [for (let i = 0; i < n; i++) a = body(i, a)] *)
Fixpoint for_each {A : Type} (js : list Z) (body : Z -> A -> M A) (a : A) : M A :=
  match js with
  | [] => mret a
  | j :: js' => a' ← body j a; for_each js' body a'
  end.

Definition for_loop {A : Type} (n : Z) (body : Z -> A -> M A) (a : A) : M A :=
  for_each (seqZ 0 n) body a.

(** What the backend supplies: the sampling parameters of a texture it
    creates, and the kernels of the shaders that are not among the
    sources.  [slot_in_pass passId numPasses q] tells whether the
    position-encoding shader resolves slot [q] in pass [passId] of
    [numPasses]; [resolve_position] is what it writes to a pixel of a slot
    it resolves. *)
Class Backend : Type := {
  default_sampling : sampling;
  null_keypoint : pixel;
  slot_in_pass : Z -> Z -> Z -> bool;
  resolve_position : kernel;
  shader : program -> kernel
}.

Section Operations.
Context `{Globals} `{Backend}.

Definition blank : texture :=
  {| width := 0; height := 0; data := fun _ _ => RGBA 0 0 0 0; params := default_sampling |}.

(** The texture object behind a handle. *)
Definition texture_of (g : gpu) (t : texid) : texture := default blank (textures g !! t).

(** *** WebGL: [gl.bindTexture], [gl.getTexParameter], [gl.texParameteri]

    Section 6 of the specification lists "texture parameter get/set"
    among the services of the backend.  A texture is bound to the target;
    the parameter of the bound texture is read, or replaced.  Reading or
    writing with no texture bound, or under a name that is not a sampling
    parameter, is an error of WebGL. *)

(** Modelled from the spec: [gl.bindTexture] (section 6, "texture
    parameter get/set", acts on the bound texture). *)
Definition bindTexture (target : Z) (t : option texid) : M unit := fun g =>
  Ok (tt, {| textures := textures g; bound := t; pool := pool g;
             programs := programs g; log := log g |}).

(** Modelled from the spec: [gl.getTexParameter] (section 6, "texture
    parameter get"). *)
Definition getTexParameter (target pname : Z) : M Z := fun g =>
  match bound g with
  | None => Throw "INVALID_OPERATION"
  | Some t =>
      match get_param (params (texture_of g t)) pname with
      | None => Throw "INVALID_ENUM"
      | Some v => Ok (v, g)
      end
  end.

(** Modelled from the spec: [gl.texParameteri] (section 6, "texture
    parameter set"). *)
Definition texParameteri (target pname param : Z) : M unit := fun g =>
  match bound g with
  | None => Throw "INVALID_OPERATION"
  | Some t =>
      let old := texture_of g t in
      match set_param (params old) pname param with
      | None => Throw "INVALID_ENUM"
      | Some s =>
          let new := {| width := width old; height := height old;
                        data := data old; params := s |} in
          Ok (tt, {| textures := <[t := new]> (textures g); bound := bound g;
                     pool := pool g; programs := programs g;
                     log := log g ++ [TexParameteri t pname param] |})
      end
  end.

(** *** The texture pool *)

(** Modelled from the spec: [acquire] of the texture pool (its class is
    not among the sources).  Section 4.1: it "returns a free texture of
    matching shape or allocates a new one". *)
Definition pool_allocate : M texid := fun g =>
  match pool g with
  | t :: free =>
      Ok (t, {| textures := textures g; bound := bound g; pool := free;
                programs := programs g; log := log g ++ [PoolAllocate t] |})
  | [] =>
      let t := fresh (dom (textures g)) in
      Ok (t, {| textures := <[t := blank]> (textures g); bound := bound g; pool := [];
                programs := programs g; log := log g ++ [PoolAllocate t] |})
  end.

(** Modelled from the spec: [release] of the texture pool.  Section 4.1:
    it "returns it to the free set without clearing contents". *)
Definition pool_free (t : texid) : M unit := fun g =>
  Ok (tt, {| textures := textures g; bound := bound g; pool := t :: pool g;
             programs := programs g; log := log g ++ [PoolFree t] |}).

(** *** Drawable textures *)

(** Modelled from the spec: [SpeedyDrawableTexture.resize] (the class is
    not among the sources).  A texture is an "opaque 2-D buffer of pixels"
    with a width and a height (section 3); [resize] sets the two, leaves a
    blank buffer and returns the texture. *)
Definition resize (t : texid) (w h : Z) : M texid := fun g =>
  let old := texture_of g t in
  let new := {| width := w; height := h; data := fun _ _ => RGBA 0 0 0 0;
                params := params old |} in
  Ok (t, {| textures := <[t := new]> (textures g); bound := bound g; pool := pool g;
            programs := programs g; log := log g ++ [Resize t w h] |}).

(** Modelled from the spec: [SpeedyDrawableTexture.clear] (the class is
    not among the sources).  [clear(r, g, b, a)] fills the buffer of
    pixels (section 3) with one colour, whose components are 0 or 1 in
    [detector.js] and 0 when left out, and returns the texture. *)
Definition clear (t : texid) (r g b a : Z) : M texid := fun s =>
  let old := texture_of s t in
  let new := {| width := width old; height := height old;
                data := fun _ _ => RGBA (255 * r) (255 * g) (255 * b) (255 * a);
                params := params old |} in
  Ok (t, {| textures := <[t := new]> (textures s); bound := bound s; pool := pool s;
            programs := programs s; log := log s ++ [Clear t r g b a] |}).

(** *** Kernels *)

(** [identity.js]: [color = currentPixel(image)]. *)
Definition identity_kernel : kernel := fun args x y =>
  match args with
  | [KTex image] => data image x y
  | _ => RGBA 0 0 0 0
  end.

(** Modelled from the spec: the shader behind [encodeNullKeypoints] (not
    among the sources).  Section 4.3, step 5: "write an encoder-length-sized
    texture consisting entirely of null sentinels". *)
Definition encodeNullKeypoints_kernel : kernel := fun _ _ _ => null_keypoint.

(** Modelled from the spec: the layout of the encoded keypoint texture
    (section 3 and the sizing formulas of section 4.3).  A slot takes
    [pixelsPerKeypoint] consecutive pixels in raster order. *)
Definition slot_of_pixel (descriptorSize extraSize encoderLength x y : Z) : Z :=
  (y * encoderLength + x) / pixelsPerKeypoint descriptorSize extraSize.

(** Modelled from the spec: the shader behind [encodeKeypointPositions]
    (not among the sources).  Section 4.3, step 3: "each of the P passes
    resolves a disjoint subset of output slot indices into source pixel
    coordinates"; section 4.2: a call evaluates every output pixel, so a
    pixel of a slot that the pass does not resolve keeps the value it has
    in the texture of the previous pass, which the caller hands over. *)
Definition encodeKeypointPositions_kernel : kernel := fun args x y =>
  match args with
  | [KTex offsets; KVec2 w h; KNum passId; KNum numPasses; KNum keypointLimit;
     KTex encodedKeypoints; KNum descriptorSize; KNum extraSize; KNum encoderLength] =>
      if slot_in_pass passId numPasses (slot_of_pixel descriptorSize extraSize encoderLength x y)
      then resolve_position [KTex offsets; KVec2 w h; KNum keypointLimit;
                             KNum descriptorSize; KNum extraSize; KNum encoderLength] x y
      else data encodedKeypoints x y
  | _ => RGBA 0 0 0 0
  end.

Definition kernel_of (p : program) : kernel :=
  match p with
  | identity => identity_kernel
  | encodeNullKeypoints => encodeNullKeypoints_kernel
  | encodeKeypointPositions => encodeKeypointPositions_kernel
  | _ => shader p
  end.

(** *** Programs

    [SpeedyProgram] is not among the sources.  Section 4.2: a pass is
    configured with [outputs(width, height, destinations...)] and then
    invoked with input textures and uniforms; an invocation evaluates the
    kernel at every output pixel and writes the result to a destination. *)

(** The table of the output configurations, with one entry replaced. *)
Definition configure (table : program -> option config) (p : program) (cfg : config)
    : program -> option config :=
  fun q => if decide (q = p) then Some cfg else table q.

(** Modelled from the spec: [SpeedyProgram.outputs] (section 4.2: a pass
    "is configured once with [outputs(width, height,
    destination_textures...)], fixing its output shape and targets"). *)
Definition outputs (p : program) (w h : Z) (destinations : list texid) : M unit := fun g =>
  let cfg := {| out_width := w; out_height := h; out_textures := destinations; out_index := 0 |} in
  Ok (tt, {| textures := textures g; bound := bound g; pool := pool g;
             programs := configure (programs g) p cfg;
             log := log g |}).

Definition resolve_arg (g : gpu) (a : arg) : karg :=
  match a with
  | Tex t => KTex (texture_of g t)
  | Num z => KNum z
  | Vec2 a b => KVec2 a b
  end.

(** The image a call of [p] renders from the state [g]. *)
Definition rendered (g : gpu) (p : program) (args : list arg) (w h : Z) (out : texid) : texture :=
  {| width := w; height := h; data := kernel_of p (resolve_arg g <$> args);
     params := params (texture_of g out) |}.

(** Modelled from the spec: a call of a [SpeedyProgram] (section 4.2:
    "each invocation performing one full parallel evaluation over every
    output pixel independently").  The call returns the texture it wrote.
    [detector.js] configures two destinations where a pass reads the
    result of the previous call of the same pass, and section 3 forbids a
    pass to read its own target: the destinations are written in turn,
    the first one first. *)
Definition run (p : program) (args : list arg) : M texid := fun g =>
  match programs g p with
  | None => Throw "the program has no output"
  | Some cfg =>
      match out_textures cfg !! out_index cfg with
      | None => Throw "the program has no output"
      | Some out =>
          let image := rendered g p args (out_width cfg) (out_height cfg) out in
          let cfg' := {| out_width := out_width cfg; out_height := out_height cfg;
                         out_textures := out_textures cfg;
                         out_index := (S (out_index cfg) mod length (out_textures cfg))%nat |} in
          Ok (out, {| textures := <[out := image]> (textures g); bound := bound g;
                      pool := pool g;
                      programs := configure (programs g) p cfg';
                      log := log g ++ [Run p args out] |})
      end
  end.

(** *** Arrays of textures *)

(** [array.slice(start)] *)
Definition slice {A : Type} (l : list A) (start : Z) : list A :=
  let len := Z.of_nat (length l) in
  let k := if start <? 0 then Z.max (len + start) 0 else Z.min start len in
  drop (Z.to_nat k) l.

(** [array.pop()]: the last element, if any, and the array without it. *)
Definition pop {A : Type} (l : list A) : option A * list A :=
  (last l, take (Nat.pred (length l)) l).

(** Reading a texture out of an array slot; calling a method of [null]
    or [undefined] throws. *)
Definition object (slot : option (option texid)) : M texid :=
  match slot with
  | Some (Some t) => mret t
  | _ => throw "TypeError"
  end.

End Operations.

End GPU.

Import GPU.

(** A backend to evaluate the program with: textures are created with
    nearest-neighbour filters and clamped coordinates, the null keypoint
    is the all-ones pixel, slots are dealt to the passes round-robin and
    the remaining kernels paint every pixel black. *)
Definition sample_backend : Backend :=
  {| default_sampling := {| mag_filter := NEAREST; min_filter := NEAREST;
                            wrap_s := CLAMP_TO_EDGE; wrap_t := CLAMP_TO_EDGE |};
     null_keypoint := RGBA 255 255 255 255;
     slot_in_pass := fun passId numPasses q => q mod numPasses =? passId;
     resolve_position := fun _ x y => RGBA (x mod 256) (y mod 256) 0 0;
     shader := fun _ _ _ _ => RGBA 0 0 0 0 |}.


(** ** [SpeedyPipelineNode]

    The base class of the nodes ([pipeline-node.js]) is not among the
    sources.  Section 3: a node "owns a fixed-size array of work textures
    allocated at [init] time and released at [release] time"; the count
    "is determined once at construction".  The array is all the detector
    uses of its base class. *)
Module SpeedyPipelineNode.
Section SpeedyPipelineNode.
Context `{Backend}.

(** Modelled from the spec: the constructor of [SpeedyPipelineNode]; the
    array of [texCount] work textures, none allocated yet (section 3). *)
Definition new (texCount : nat) : list (option texid) := replicate texCount None.

(** Modelled from the spec: [SpeedyPipelineNode.init], which "allocates
    this node's fixed pool of work textures" (section 4.4). *)
Fixpoint init (tex : list (option texid)) : M (list (option texid)) :=
  match tex with
  | [] => mret []
  | _ :: rest => t ← pool_allocate; ts ← init rest; mret (Some t :: ts)
  end.

(** Modelled from the spec: [SpeedyPipelineNode.release], which returns
    the owned textures to the pool (section 4.4). *)
Fixpoint release (tex : list (option texid)) : M (list (option texid)) :=
  match tex with
  | [] => mret []
  | Some t :: rest => pool_free t;; ts ← release rest; mret (None :: ts)
  | None :: rest => ts ← release rest; mret (None :: ts)
  end.

End SpeedyPipelineNode.
End SpeedyPipelineNode.

(** ** [SpeedyPipelineNodeKeypointDetector] ([detector.js]) *)
Module SpeedyPipelineNodeKeypointDetector.
Section SpeedyPipelineNodeKeypointDetector.
Context `{Globals} `{Backend}.

Record node : Type := {
  _tex : list (option texid);
  _capacity : Z;
  _oldWrapS : Z
}.

(** [constructor(name = undefined, texCount = 0, portBuilders = undefined)] *)
Definition new (texCount : option nat) : node :=
  let texCount := default 0%nat texCount in
  {| _tex := SpeedyPipelineNode.new (texCount + NUMBER_OF_INTERNAL_TEXTURES);
     _capacity := DEFAULT_CAPACITY;
     _oldWrapS := 0 |}.

Definition _setupSpecialTexture (this : node) (pname param : Z) : M Z :=
  texture ← object (_tex this !! (length (_tex this) - 1)%nat);
  bindTexture TEXTURE_2D (Some texture);;
  oldval ← getTexParameter TEXTURE_2D pname;
  texParameteri TEXTURE_2D pname param;;
  bindTexture TEXTURE_2D None;;
  mret oldval.

Definition init (this : node) : M node :=
  tex ← SpeedyPipelineNode.init (_tex this);
  let this := {| _tex := tex; _capacity := _capacity this; _oldWrapS := _oldWrapS this |} in
  oldWrapS ← _setupSpecialTexture this TEXTURE_WRAP_S REPEAT;
  mret {| _tex := _tex this; _capacity := _capacity this; _oldWrapS := oldWrapS |}.

Definition release (this : node) : M node :=
  _setupSpecialTexture this TEXTURE_WRAP_S (_oldWrapS this);;
  tex ← SpeedyPipelineNode.release (_tex this);
  mret {| _tex := tex; _capacity := _capacity this; _oldWrapS := _oldWrapS this |}.

Definition capacity (this : node) : Z := _capacity this.

Definition set_capacity (this : node) (capacity : number) : node :=
  {| _tex := _tex this;
     _capacity := Z.min (Z.max 0 (bitor capacity (of_Z 0))) MAX_CAPACITY;
     _oldWrapS := _oldWrapS this |}.

Definition _encodeKeypoints (this : node) (corners encodedKeypoints : texid)
    (descriptorSize extraSize : option Z) : M texid :=
  let descriptorSize := default 0 descriptorSize in
  let extraSize := default 0 extraSize in
  let capacity := _capacity this in
  let encoderLength := encoderLength capacity descriptorSize extraSize in
  g ← get;
  let width := width (texture_of g corners) in
  let height := height (texture_of g corners) in
  let imageSize := Vec2 width height in
  let tex := slice (_tex this)
               (Z.of_nat (length (_tex this)) - Z.of_nat NUMBER_OF_INTERNAL_TEXTURES) in
  let '(specialTexture, tex) := pop tex in
  (* prepare programs *)
  tex0 ← object (tex !! 0%nat);
  outputs encodeKeypointSkipOffsets width height [tex0];;
  tex1 ← object (tex !! 1%nat);
  outputs encodeKeypointLongSkipOffsets width height [tex1; tex0];;
  tex2 ← object (tex !! 2%nat);
  tex3 ← object (tex !! 3%nat);
  outputs encodeKeypointPositions encoderLength encoderLength [tex2; tex3];;
  outputs encodeKeypointProperties encoderLength encoderLength [encodedKeypoints];;
  (* copy the input corners to a special texture *)
  specialTexture ← object specialTexture;
  outputs identity width height [specialTexture];;
  corners ← run identity [Tex corners];
  (* encode skip offsets *)
  offsets ← run encodeKeypointSkipOffsets [Tex corners; imageSize];
  offsets ← for_loop LONG_SKIP_OFFSET_PASSES (fun i offsets =>
              run encodeKeypointLongSkipOffsets [Tex offsets; imageSize]) offsets;
  (* encode keypoint positions *)
  encodedKps ← clear tex3 0 0 0 0;
  encodedKps ← for_loop ENCODER_PASSES (fun j encodedKps =>
                 run encodeKeypointPositions
                   [Tex offsets; imageSize; Num j; Num ENCODER_PASSES; Num capacity;
                    Tex encodedKps; Num descriptorSize; Num extraSize; Num encoderLength])
                 encodedKps;
  (* encode keypoint properties *)
  run encodeKeypointProperties
    [Tex corners; Tex encodedKps; Num descriptorSize; Num extraSize; Num encoderLength].

(** [Math.ceil(Math.log2(n))] for the number of pixels of a texture; on
    0 the source obtains [-Infinity], which the integer operators below
    read as 0 and which ends the loop at once, as 0 does. *)
Definition ceil_log2 (n : Z) : Z := Z.log2_up n.

Definition _encodeKeypoints2 (this : node) (corners encodedKeypoints : texid)
    (descriptorSize extraSize : option Z) : M texid :=
  let descriptorSize := default 0 descriptorSize in
  let extraSize := default 0 extraSize in
  let capacity := _capacity this in
  let encoderLength := encoderLength capacity descriptorSize extraSize in
  g ← get;
  let width := width (texture_of g corners) in
  let height := height (texture_of g corners) in
  let tex := slice (_tex this)
               (Z.of_nat (length (_tex this)) - Z.of_nat NUMBER_OF_INTERNAL_TEXTURES) in
  (* pad textures to a power of two *)
  let exp2 := ceil_log2 (width * height) in
  let paddedWidth := shl 1 (ushr exp2 1) in
  let paddedHeight := shl 1 (ushr exp2 1 + bitand exp2 1) in
  tex1 ← object (tex !! 1%nat);
  outputs initLookupOfLocations paddedWidth paddedHeight [tex1];;
  tex0 ← object (tex !! 0%nat);
  outputs computeLookupOfLocations paddedWidth paddedHeight [tex0; tex1];;
  tex3 ← object (tex !! 3%nat);
  outputs initSumTable paddedWidth paddedHeight [tex3];;
  tex2 ← object (tex !! 2%nat);
  outputs computeSumTable paddedWidth paddedHeight [tex2; tex3];;
  (* compute lookup table *)
  let stride := paddedWidth in
  sumTable ← run initSumTable [Tex corners; Num stride];
  lookupTable ← run initLookupOfLocations [Tex corners; Num stride];
  let npasses := exp2 in
  _ ← for_loop npasses (fun i '(sumTable, lookupTable) =>
        let prevSumTable := sumTable in
        let blockSize := shl 1 i in
        sumTable ← run computeSumTable
                     [Tex prevSumTable; Num blockSize; Num (2 * blockSize); Num stride];
        lookupTable ← run computeLookupOfLocations
                        [Tex lookupTable; Tex sumTable; Tex prevSumTable;
                         Num blockSize; Num (2 * blockSize); Num stride];
        mret (sumTable, lookupTable)) (sumTable, lookupTable);
  (* encode keypoints *)
  encodedKeypoints ← resize encodedKeypoints encoderLength encoderLength;
  clear encodedKeypoints 1 1 1 1.

Definition _encodeZeroKeypoints (this : node) (encodedKeypoints : texid)
    (descriptorSize extraSize : option Z) : M texid :=
  let descriptorSize := default 0 descriptorSize in
  let extraSize := default 0 extraSize in
  let capacity := 0 in
  let encoderLength := encoderLength capacity descriptorSize extraSize in
  outputs encodeNullKeypoints encoderLength encoderLength [encodedKeypoints];;
  run encodeNullKeypoints [];;
  mret encodedKeypoints.

End SpeedyPipelineNodeKeypointDetector.
End SpeedyPipelineNodeKeypointDetector.

(** ** [SpeedyPipelineNodeMultiscaleKeypointDetector] ([detector.js]) *)
Module SpeedyPipelineNodeMultiscaleKeypointDetector.
Section SpeedyPipelineNodeMultiscaleKeypointDetector.
Context `{Globals} `{Backend}.

(** The fields of the detector it extends, and its own. *)
Record node : Type := {
  super : SpeedyPipelineNodeKeypointDetector.node;
  _levels : Z;
  _scaleFactor : number
}.

Definition new (texCount : option nat) : node :=
  {| super := SpeedyPipelineNodeKeypointDetector.new texCount;
     _levels := 1;
     _scaleFactor := DEFAULT_SCALE_FACTOR |}.

Definition levels (this : node) : Z := _levels this.

Definition set_levels (this : node) (levels : number) : node :=
  {| super := super this;
     _levels := Z.max 1 (bitor levels (of_Z 0));
     _scaleFactor := _scaleFactor this |}.

Definition scaleFactor (this : node) : number := _scaleFactor this.

Definition set_scaleFactor (this : node) (scaleFactor : number) : node :=
  {| super := super this;
     _levels := _levels this;
     _scaleFactor := Math_max (Finite 1) (Math_min (unary_plus scaleFactor) (Finite 2)) |}.

End SpeedyPipelineNodeMultiscaleKeypointDetector.
End SpeedyPipelineNodeMultiscaleKeypointDetector.

(** ** The log of the skip-offset encoder *)
Section EncoderLog.
Context `{Globals} `{Backend}.

(** The calls [_encodeKeypoints] makes on a node whose internal textures
    are [t0 .. t4], as they enter the log. *)
Definition position_call (this : SpeedyPipelineNodeKeypointDetector.node) (g : gpu) (corners : texid)
    (descriptorSize extraSize : option Z) (offsets : texid) (j : Z) (previous out : texid)
    : event :=
  let descriptorSize := default 0 descriptorSize in
  let extraSize := default 0 extraSize in
  Run encodeKeypointPositions
    [Tex offsets;
     Vec2 (width (texture_of g corners)) (height (texture_of g corners));
     Num j; Num ENCODER_PASSES; Num (SpeedyPipelineNodeKeypointDetector._capacity this); Tex previous;
     Num descriptorSize; Num extraSize;
     Num (encoderLength (SpeedyPipelineNodeKeypointDetector._capacity this) descriptorSize extraSize)]
    out.

Definition encodeKeypoints_calls (this : SpeedyPipelineNodeKeypointDetector.node) (g : gpu) (corners encodedKeypoints : texid)
    (descriptorSize extraSize : option Z) (t0 t1 t2 t3 t4 : texid) : list event :=
  let imageSize := Vec2 (width (texture_of g corners)) (height (texture_of g corners)) in
  let position_call := position_call this g corners descriptorSize extraSize t0 in
  [Run identity [Tex corners] t4;
   Run encodeKeypointSkipOffsets [Tex t4; imageSize] t0;
   Run encodeKeypointLongSkipOffsets [Tex t0; imageSize] t1;
   Run encodeKeypointLongSkipOffsets [Tex t1; imageSize] t0;
   Clear t3 0 0 0 0;
   position_call 0 t3 t2;
   position_call 1 t2 t3;
   position_call 2 t3 t2;
   position_call 3 t2 t3;
   Run encodeKeypointProperties
     [Tex t4; Tex t3; Num (default 0 descriptorSize); Num (default 0 extraSize);
      Num (encoderLength (SpeedyPipelineNodeKeypointDetector._capacity this) (default 0 descriptorSize) (default 0 extraSize))]
     encodedKeypoints].

(** Reading the log: the pass index and pass count of every call of the
    position-encoding program, in order, and the number of calls of the
    property-encoding program. *)
Definition position_passes (calls : list event) : list (Z * Z) :=
  omap (fun ev => match ev with
                  | Run encodeKeypointPositions
                        (_ :: _ :: Num passId :: Num numPasses :: _) _ =>
                      Some (passId, numPasses)
                  | _ => None
                  end) calls.

Definition is_property_pass (ev : event) : bool :=
  match ev with
  | Run encodeKeypointProperties _ _ => true
  | _ => false
  end.

Definition property_passes (calls : list event) : nat :=
  length (List.filter is_property_pass calls).

End EncoderLog.

(** ** Sample inputs

    An initialised node with no textures besides the internal ones, and a
    GPU holding two 64x64 corner textures: one with a single corner at
    (10, 20), one with none. *)
Definition sample_node : SpeedyPipelineNodeKeypointDetector.node :=
  {| SpeedyPipelineNodeKeypointDetector._tex :=
       [Some 1%positive; Some 2%positive; Some 3%positive; Some 4%positive; Some 5%positive];
     SpeedyPipelineNodeKeypointDetector._capacity := DEFAULT_CAPACITY;
     SpeedyPipelineNodeKeypointDetector._oldWrapS := CLAMP_TO_EDGE |}.

Definition single_corner : texture :=
  {| width := 64; height := 64;
     data := fun x y => if (x =? 10) && (y =? 20) then RGBA 255 255 255 255 else RGBA 0 0 0 0;
     params := @default_sampling sample_backend |}.

Definition no_corner : texture :=
  {| width := 64; height := 64;
     data := fun _ _ => RGBA 0 0 0 0;
     params := @default_sampling sample_backend |}.

Definition sample_gpu : gpu :=
  {| textures := <[6%positive := single_corner]> (<[7%positive := no_corner]> ∅);
     bound := None;
     pool := [];
     programs := fun _ => None;
     log := [] |}.

(* ================================================================== *)
(** * Part II: properties                                              *)
(* ================================================================== *)

(** ** Integer arithmetic of the sizing formulas *)

Lemma ceil_div_bounds (a b : Z) :
  0 < b -> b * ceil_div a b - b < a <= b * ceil_div a b.
Proof.
  intros Hb. unfold ceil_div.
  pose proof (Z.div_mod (- a) b ltac:(lia)) as Hdm.
  pose proof (Z.mod_pos_bound (- a) b Hb) as Hm.
  nia.
Qed.

Lemma ceil_div_pos (a b : Z) : 0 < b -> 0 < a -> 0 < ceil_div a b.
Proof. intros Hb Ha. pose proof (ceil_div_bounds a b Hb). nia. Qed.

Lemma ceil_div_Zceil (a : Z) : ceil_div a 4 = Zceil (IZR a / 4).
Proof.
  symmetry. apply Zceil_eq.
  destruct (ceil_div_bounds a 4 ltac:(lia)) as [Hlo Hhi].
  apply IZR_lt in Hlo. apply IZR_le in Hhi.
  rewrite minus_IZR, mult_IZR in Hlo. rewrite mult_IZR in Hhi.
  split; lra.
Qed.

Lemma ceil_sqrt_Zceil (n : Z) : 0 <= n -> ceil_sqrt n = Zceil (sqrt (IZR n)).
Proof.
  intros Hn. unfold ceil_sqrt. symmetry. apply Zceil_eq.
  destruct (Z.eq_dec n 0) as [-> | Hne].
  - rewrite Z.sqrt_up_0, sqrt_0. split; lra.
  - assert (Hpos : 0 < n) by lia.
    pose proof (Z.sqrt_up_spec n Hpos) as [Hlo Hhi].
    pose proof (proj2 (Z.sqrt_up_pos n) Hpos) as Hs.
    set (s := Z.sqrt_up n) in *.
    assert (Hs1 : (0 <= IZR s - 1)%R).
    { replace (IZR s - 1)%R with (IZR (s - 1)) by (now rewrite minus_IZR).
      apply IZR_le. lia. }
    assert (HnR : (0 <= IZR n)%R) by (apply IZR_le; lia).
    split.
    + rewrite <- (sqrt_square (IZR s - 1)) by exact Hs1.
      apply sqrt_lt_1; [nra | exact HnR |].
      replace ((IZR s - 1) * (IZR s - 1))%R with (IZR (Z.pred s * Z.pred s)).
      * apply IZR_lt. exact Hlo.
      * rewrite mult_IZR. unfold Z.pred. rewrite plus_IZR. simpl. lra.
    + rewrite <- (sqrt_square (IZR s)) by lra.
      apply sqrt_le_1; [exact HnR | nra |].
      rewrite <- mult_IZR. apply IZR_le. exact Hhi.
Qed.

Section SizingProperties.
Context `{Globals}.

Lemma pixelsPerKeypoint_pos (descriptorSize extraSize : Z) :
  0 < MIN_KEYPOINT_SIZE -> 0 <= descriptorSize -> 0 <= extraSize ->
  0 < pixelsPerKeypoint descriptorSize extraSize.
Proof. intros. apply ceil_div_pos; lia. Qed.

Lemma encoderLength_ge_min (capacity descriptorSize extraSize : Z) :
  MIN_ENCODER_LENGTH <= encoderLength capacity descriptorSize extraSize.
Proof. unfold encoderLength. lia. Qed.

Lemma encoderLength_square (capacity descriptorSize extraSize : Z) :
  0 < MIN_KEYPOINT_SIZE -> 0 <= descriptorSize -> 0 <= extraSize -> 0 <= capacity ->
  let L := encoderLength capacity descriptorSize extraSize in
  capacity * pixelsPerKeypoint descriptorSize extraSize <= L * L.
Proof.
  intros Hk Hd He Hc L.
  pose proof (pixelsPerKeypoint_pos descriptorSize extraSize Hk Hd He) as Hp.
  set (n := capacity * pixelsPerKeypoint descriptorSize extraSize).
  assert (Hn : 0 <= n) by (unfold n; nia).
  pose proof (Z.sqrt_sqrt_up_spec n Hn) as [_ Hup].
  pose proof (Z.sqrt_up_nonneg n) as Hs.
  assert (HL : Z.sqrt_up n <= L).
  { unfold L, encoderLength, ceil_sqrt. fold (pixelsPerKeypoint descriptorSize extraSize).
    fold n. lia. }
  nia.
Qed.



End SizingProperties.



(** The comment on [DEFAULT_CAPACITY]: a 64x64 texture with 2 pixels per
    keypoint. *)
Example default_capacity_texture :
  @pixelsPerKeypoint sample_globals 0 0 = 2 /\
  @encoderLength sample_globals DEFAULT_CAPACITY 0 0 = 64 /\
  @encoderCapacity sample_globals 0 0 64 = DEFAULT_CAPACITY.
Proof. repeat split. Qed.

(** ** The 32-bit operators: [v | 0], [<<], [>>>], [&] *)

Example ToInt32_examples :
  ToInt32 (Finite (- 7 # 2)) = -3
  /\ ToInt32 (Finite (7 # 2)) = 3
  /\ ToInt32 (of_Z (2 ^ 32 + 5)) = 5
  /\ ToInt32 (of_Z (2 ^ 31)) = - 2 ^ 31
  /\ ToInt32 NaN = 0 /\ ToInt32 PosInfinity = 0.
Proof. repeat split. Qed.

(** The padding of [_encodeKeypoints2]: a 640x480 image is padded to
    512x1024, a 64x64 image is left as it is. *)
Example padding_examples :
  let exp2 := SpeedyPipelineNodeKeypointDetector.ceil_log2 (640 * 480) in
  exp2 = 19 /\ shl 1 (ushr exp2 1) = 512 /\ shl 1 (ushr exp2 1 + bitand exp2 1) = 1024
  /\ shl 1 (ushr (SpeedyPipelineNodeKeypointDetector.ceil_log2 (64 * 64)) 1) = 64.
Proof. repeat split. Qed.

Lemma ToInt32_range (v : number) : - 2 ^ 31 <= ToInt32 v < 2 ^ 31.
Proof.
  destruct v as [| | | q]; simpl; try lia.
  pose proof (Z.mod_pos_bound (truncate q) (2 ^ 32) ltac:(lia)) as Hm.
  destruct (Z.leb_spec (2 ^ 31) (truncate q mod 2 ^ 32)); lia.
Qed.

Lemma ToInt32_congruent (q : Q) : (ToInt32 (Finite q) - truncate q) mod 2 ^ 32 = 0.
Proof.
  simpl.
  pose proof (Z.div_mod (truncate q) (2 ^ 32) ltac:(lia)) as Hdm.
  destruct (Z.leb_spec (2 ^ 31) (truncate q mod 2 ^ 32)).
  - replace (truncate q mod 2 ^ 32 - 2 ^ 32 - truncate q)
      with ((- (truncate q / 2 ^ 32) - 1) * 2 ^ 32) by lia.
    apply Z.mod_mul. lia.
  - replace (truncate q mod 2 ^ 32 - truncate q)
      with ((- (truncate q / 2 ^ 32)) * 2 ^ 32) by lia.
    apply Z.mod_mul. lia.
Qed.

Lemma ToInt32_small (q : Q) :
  - 2 ^ 31 <= truncate q < 2 ^ 31 -> ToInt32 (Finite q) = truncate q.
Proof.
  intros Hq. simpl.
  destruct (Z.leb_spec (2 ^ 31) (truncate q mod 2 ^ 32)) as [Hge | Hlt].
  - destruct (Z.lt_ge_cases (truncate q) 0) as [Hneg | Hpos].
    + rewrite <- (Z.mod_add _ 1) by lia. rewrite Z.mod_small; lia.
    + rewrite Z.mod_small in Hge; lia.
  - destruct (Z.lt_ge_cases (truncate q) 0) as [Hneg | Hpos].
    + rewrite <- (Z.mod_add _ 1) in Hlt by lia. rewrite Z.mod_small in Hlt; lia.
    + rewrite Z.mod_small; lia.
Qed.

Lemma ToInt32_wraps (q : Q) :
  2 ^ 31 <= truncate q < 2 ^ 32 -> ToInt32 (Finite q) = truncate q - 2 ^ 32.
Proof.
  intros Hq. simpl. rewrite Z.mod_small by lia.
  destruct (Z.leb_spec (2 ^ 31) (truncate q)); lia.
Qed.

Lemma testbit_31 (u : Z) : 0 <= u < 2 ^ 32 -> Z.testbit u 31 = (2 ^ 31 <=? u).
Proof.
  intros Hu.
  destruct (Z.leb_spec (2 ^ 31) u) as [Hge | Hlt].
  - apply Z.testbit_true; [lia |].
    assert (Hd : u / 2 ^ 31 = 1).
    { symmetry. apply (Z.div_unique u (2 ^ 31) 1 (u - 2 ^ 31)); lia. }
    rewrite Hd. reflexivity.
  - apply Z.bits_above_log2; [lia |].
    destruct (Z.eq_dec u 0) as [-> | Hne]; [reflexivity |].
    apply Z.log2_lt_pow2; lia.
Qed.

Lemma trunc32_ToInt32 (v : number) : trunc32 v = ToInt32 v.
Proof.
  destruct v as [| | | q]; try reflexivity.
  unfold trunc32, ToInt32. cbv zeta.
  rewrite Z.land_ones by lia.
  rewrite testbit_31 by (apply Z.mod_pos_bound; lia).
  reflexivity.
Qed.

Lemma bitor_zero (v : number) : bitor v (of_Z 0) = ToInt32 v.
Proof. unfold bitor. change (ToInt32 (of_Z 0)) with 0. apply Z.lor_0_r. Qed.

(** The integer part of a rational, between integer bounds. *)
Lemma truncate_nonneg_bounds (q : Q) (lo hi : Z) :
  0 <= lo -> (inject_Z lo < q)%Q -> (q < inject_Z hi)%Q -> lo <= truncate q < hi.
Proof.
  destruct q as [n d]. unfold Qlt, truncate. simpl. intros Hlo Hl Hh.
  assert (Hn : 0 <= n) by nia.
  rewrite Z.quot_div_nonneg by lia.
  split.
  - apply Z.div_le_lower_bound; lia.
  - apply Z.div_lt_upper_bound; lia.
Qed.

Lemma truncate_negative_bounds (q : Q) (lo : Z) :
  lo <= 0 -> (inject_Z (lo - 1) < q)%Q -> (q < 0)%Q -> lo <= truncate q <= 0.
Proof.
  destruct q as [n d]. unfold Qlt, truncate. simpl. intros Hlo Hl Hh.
  assert (Hn : n < 0) by lia.
  replace n with (- (- n)) by lia. rewrite Z.quot_opp_l by lia.
  rewrite Z.quot_div_nonneg by lia.
  assert (0 <= (- n) / Z.pos d) by (apply Z.div_pos; lia).
  assert ((- n) / Z.pos d < - lo + 1) by (apply Z.div_lt_upper_bound; lia).
  lia.
Qed.

(** ** Writing the [capacity] of a detector node *)
Section CapacityProperties.
Context `{Globals} `{Backend}.
Import SpeedyPipelineNodeKeypointDetector.

Lemma set_capacity_stored (this : node) (v : number) :
  capacity (set_capacity this v) = Z.min (Z.max 0 (ToInt32 v)) MAX_CAPACITY.
Proof. unfold capacity, set_capacity. simpl. now rewrite bitor_zero. Qed.

Lemma set_capacity_frame (this : node) (v : number) :
  _tex (set_capacity this v) = _tex this /\ _oldWrapS (set_capacity this v) = _oldWrapS this.
Proof. split; reflexivity. Qed.

(** C3, as amended.  A write to [capacity] is a total function of the
    value written; the stored capacity lies in [[0, MAX_CAPACITY]]; a
    negative value above [-2^31 - 1] stores 0 and a value above
    [MAX_CAPACITY] and below [2^31] stores [MAX_CAPACITY]. *)
Theorem capacity_clamping (this : node) (v : number) :
  0 <= MAX_CAPACITY ->
  0 <= capacity (set_capacity this v) <= MAX_CAPACITY
  /\ (in_int32_range v -> negative v -> capacity (set_capacity this v) = 0)
  /\ (in_int32_range v -> above MAX_CAPACITY v ->
      capacity (set_capacity this v) = MAX_CAPACITY).
Proof.
  intros Hmax. rewrite set_capacity_stored.
  split; [lia |].
  split.
  - destruct v as [| | | q]; simpl; try tauto.
    intros [Hlo _] Hneg.
    pose proof (truncate_negative_bounds q (- 2 ^ 31) ltac:(lia) Hlo Hneg) as Ht.
    change (Z.min (Z.max 0 (ToInt32 (Finite q))) MAX_CAPACITY = 0).
    rewrite ToInt32_small by lia. lia.
  - destruct v as [| | | q]; simpl; try tauto.
    intros [_ Hhi] Habove.
    pose proof (truncate_nonneg_bounds q MAX_CAPACITY (2 ^ 31) Hmax Habove Hhi) as Ht.
    change (Z.min (Z.max 0 (ToInt32 (Finite q))) MAX_CAPACITY = MAX_CAPACITY).
    rewrite ToInt32_small by lia. lia.
Qed.

(** C10. A write of [v] stores [min(max(0, trunc32(v)), MAX_ENCODER_CAPACITY)],
    an integer.  [trunc32(v)] is a signed 32-bit integer congruent to the
    integer part of [v] modulo 2^32: it is the integer part itself when
    that fits (the fraction is dropped before clamping), and it is
    negative, so that 0 is stored rather than [MAX_ENCODER_CAPACITY], when
    the integer part lies in [[2^31, 2^32)]. *)
Theorem capacity_write_trunc32 (this : node) (v : number) :
  capacity (set_capacity this v) = Z.min (Z.max 0 (trunc32 v)) MAX_ENCODER_CAPACITY
  /\ - 2 ^ 31 <= trunc32 v < 2 ^ 31
  /\ (forall q, v = Finite q -> (trunc32 v - truncate q) mod 2 ^ 32 = 0)
  /\ (forall q, v = Finite q -> - 2 ^ 31 <= truncate q < 2 ^ 31 ->
      capacity (set_capacity this v) = Z.min (Z.max 0 (truncate q)) MAX_ENCODER_CAPACITY)
  /\ (forall q, v = Finite q -> 2 ^ 31 <= truncate q < 2 ^ 32 ->
      capacity (set_capacity this v) = Z.min 0 MAX_ENCODER_CAPACITY).
Proof.
  rewrite set_capacity_stored, trunc32_ToInt32. unfold MAX_CAPACITY.
  split; [reflexivity |].
  split; [apply ToInt32_range |].
  split; [intros q ->; apply ToInt32_congruent |].
  split.
  - intros q -> Hq. now rewrite ToInt32_small.
  - intros q -> Hq. rewrite ToInt32_wraps by exact Hq. f_equal. lia.
Qed.

End CapacityProperties.

Lemma capacity_clamping_witness :
  let this := @SpeedyPipelineNodeKeypointDetector.new None in
  let stored v := SpeedyPipelineNodeKeypointDetector.capacity
                    (@SpeedyPipelineNodeKeypointDetector.set_capacity sample_globals this v) in
  0 <= stored (Finite (3 # 2)) <= 8192
  /\ stored (Finite (- 7 # 2)) = 0
  /\ stored (Finite (16385 # 2)) = 8192.
Proof.
  intros this stored.
  split; [| split].
  - apply (@capacity_clamping sample_globals this (Finite (3 # 2))). cbv. discriminate.
  - apply (@capacity_clamping sample_globals this (Finite (- 7 # 2)));
      cbv; intuition discriminate.
  - apply (@capacity_clamping sample_globals this (Finite (16385 # 2)));
      cbv; intuition discriminate.
Defined.

(** C3 as written fails outside of the signed 32-bit range: 2^31 is above
    [MAX_CAPACITY] and stores 0, not [MAX_CAPACITY]; [-2^31 - 1] is
    negative and stores [MAX_CAPACITY], not 0; [+Infinity] is above
    [MAX_CAPACITY] and stores 0. *)
Lemma capacity_clamping_counterexample :
  let this := @SpeedyPipelineNodeKeypointDetector.new None in
  let stored v := SpeedyPipelineNodeKeypointDetector.capacity
                    (@SpeedyPipelineNodeKeypointDetector.set_capacity sample_globals this v) in
  (above (@MAX_CAPACITY sample_globals) (of_Z 2147483648)
   /\ stored (of_Z 2147483648) = 0
   /\ stored (of_Z 2147483648) <> @MAX_CAPACITY sample_globals)
  /\ (negative (of_Z (-2147483649))
      /\ stored (of_Z (-2147483649)) = @MAX_CAPACITY sample_globals
      /\ stored (of_Z (-2147483649)) <> 0)
  /\ (above (@MAX_CAPACITY sample_globals) PosInfinity
      /\ stored PosInfinity = 0
      /\ stored PosInfinity <> @MAX_CAPACITY sample_globals).
Proof. cbv. intuition congruence. Qed.

Lemma capacity_write_trunc32_witness :
  let this := @SpeedyPipelineNodeKeypointDetector.new None in
  let stored v := SpeedyPipelineNodeKeypointDetector.capacity
                    (@SpeedyPipelineNodeKeypointDetector.set_capacity sample_globals this v) in
  stored (Finite (5 # 2)) = 2 /\ stored (of_Z 2147483648) = 0.
Proof.
  intros this stored. split.
  - apply (proj1 (proj2 (proj2 (proj2
      (@capacity_write_trunc32 sample_globals this (Finite (5 # 2))))))
      (5 # 2) eq_refl).
    cbv. intuition discriminate.
  - apply (proj2 (proj2 (proj2 (proj2
      (@capacity_write_trunc32 sample_globals this (of_Z 2147483648)))))
      (inject_Z 2147483648) eq_refl).
    cbv. intuition discriminate.
Defined.

(** ** Writing [levels] and [scaleFactor] of a multiscale detector node *)
Section MultiscaleProperties.
Import SpeedyPipelineNodeMultiscaleKeypointDetector.

Lemma set_levels_ge_1 (this : node) (v : number) : 1 <= levels (set_levels this v).
Proof. unfold levels, set_levels. simpl. lia. Qed.

(** Every number but NaN is stored within [[1, 2]]. *)
Lemma set_scaleFactor_within (this : node) (v : number) :
  v <> NaN -> within 1 2 (scaleFactor (set_scaleFactor this v)).
Proof.
  intros Hv. unfold scaleFactor, set_scaleFactor, unary_plus. simpl.
  destruct v as [| | | q]; [congruence | | |].
  - simpl. split; [discriminate | apply Qle_refl].
  - simpl. split; [apply Qle_refl | discriminate].
  - simpl. destruct (Qle_bool q 2) eqn:Hq2; simpl.
    + destruct (Qle_bool 1 q) eqn:H1q; simpl.
      * split; now apply Qle_bool_iff.
      * split; [apply Qle_refl | discriminate].
    + split; [discriminate | apply Qle_refl].
Qed.

(** C7 fails at NaN.  [levels] is at least 1 after every write
    ([set_levels_ge_1]) and every number but NaN leaves [scaleFactor]
    within [[1, 2]] ([set_scaleFactor_within]); but [Math.min] and
    [Math.max] hand NaN through, so the write of NaN stores NaN, which
    lies in no interval. *)
Theorem scaleFactor_write_NaN (this : node) :
  scaleFactor (set_scaleFactor this NaN) = NaN
  /\ ~ within 1 2 (scaleFactor (set_scaleFactor this NaN)).
Proof. split; [reflexivity | intros []]. Qed.

End MultiscaleProperties.

(** ** [SpeedyKeypoint] *)
Section KeypointProperties.
Import SpeedyKeypoint.
Context {SpeedyKeypointDescriptor : Type}.

Lemma Math_pow_2_integer (n : Z) : Math_pow 2 (IZR n) = powerRZ 2 n.
Proof.
  unfold Math_pow.
  destruct n as [| p | p].
  - apply Rpower_O. lra.
  - change (powerRZ 2 (Z.pos p)) with (2 ^ Pos.to_nat p)%R.
    rewrite <- (positive_nat_Z p), <- INR_IZR_INZ.
    apply Rpower_pow. lra.
  - change (powerRZ 2 (Z.neg p)) with (/ 2 ^ Pos.to_nat p)%R.
    change (Z.neg p) with (- Z.pos p). rewrite opp_IZR, Rpower_Ropp.
    rewrite <- (positive_nat_Z p), <- INR_IZR_INZ.
    rewrite Rpower_pow by lra. reflexivity.
Qed.


End KeypointProperties.


(** ** Reasoning about GPU computations *)

Lemma returns_elim {A : Type} (m : M A) (g : gpu) (Q : A -> gpu -> Prop) :
  returns m g Q -> exists a g', m g = Ok (a, g') /\ Q a g'.
Proof.
  unfold returns. destruct (m g) as [[a g'] | err]; [eauto | tauto].
Qed.

Lemma returns_ret {A : Type} (a : A) (g : gpu) (Q : A -> gpu -> Prop) :
  Q a g -> returns (mret a) g Q.
Proof. intros HQ. exact HQ. Qed.

Lemma returns_bind {A B : Type} (m : M A) (k : A -> M B) (g : gpu) (Q : B -> gpu -> Prop) :
  returns m g (fun a g' => returns (k a) g' Q) -> returns (m ≫= k) g Q.
Proof.
  unfold returns, mbind, gpu_bind. destruct (m g) as [[a g'] | err]; tauto.
Qed.

Lemma returns_mono {A : Type} (m : M A) (g : gpu) (Q Q' : A -> gpu -> Prop) :
  returns m g Q -> (forall a g', Q a g' -> Q' a g') -> returns m g Q'.
Proof.
  unfold returns. destruct (m g) as [[a g'] | err]; [auto | tauto].
Qed.

Lemma returns_get (g : gpu) (Q : gpu -> gpu -> Prop) : Q g g -> returns get g Q.
Proof. intros HQ. exact HQ. Qed.

Lemma configure_eq (table : program -> option config) (p : program) (cfg : config) :
  configure table p cfg p = Some cfg.
Proof. unfold configure. now rewrite decide_True. Qed.

Lemma configure_ne (table : program -> option config) (p q : program) (cfg : config) :
  q <> p -> configure table p cfg q = table q.
Proof. intros Hne. unfold configure. now rewrite decide_False. Qed.

Section GPUProperties.
Context `{Globals} `{Backend}.

Lemma returns_object (t : texid) (g : gpu) (Q : texid -> gpu -> Prop) :
  Q t g -> returns (object (Some (Some t))) g Q.
Proof. intros HQ. exact HQ. Qed.

Lemma returns_outputs (p : program) (w h : Z) (ds : list texid) (g : gpu)
    (Q : unit -> gpu -> Prop) :
  (forall g',
      programs g' = configure (programs g) p
                      {| out_width := w; out_height := h; out_textures := ds; out_index := 0 |} ->
      textures g' = textures g -> log g' = log g ->
      Q tt g') ->
  returns (outputs p w h ds) g Q.
Proof. intros HQ. apply HQ; reflexivity. Qed.

Lemma returns_run (p : program) (args : list arg) (g : gpu) (w h : Z) (ds : list texid)
    (i : nat) (out : texid) (Q : texid -> gpu -> Prop) :
  programs g p = Some {| out_width := w; out_height := h; out_textures := ds; out_index := i |} ->
  ds !! i = Some out ->
  (forall g',
      programs g' = configure (programs g) p
                      {| out_width := w; out_height := h; out_textures := ds;
                         out_index := (S i mod length ds)%nat |} ->
      textures g' = <[out := rendered g p args w h out]> (textures g) ->
      log g' = log g ++ [Run p args out] ->
      Q out g') ->
  returns (run p args) g Q.
Proof.
  intros Hp Hout HQ. unfold returns, run. rewrite Hp. simpl. rewrite Hout.
  apply HQ; reflexivity.
Qed.

Lemma returns_clear (t : texid) (r gr b a : Z) (g : gpu) (Q : texid -> gpu -> Prop) :
  (forall g',
      programs g' = programs g ->
      textures g' = <[t := {| width := width (texture_of g t); height := height (texture_of g t);
                              data := fun _ _ => RGBA (255 * r) (255 * gr) (255 * b) (255 * a);
                              params := params (texture_of g t) |}]> (textures g) ->
      log g' = log g ++ [Clear t r gr b a] ->
      Q t g') ->
  returns (clear t r gr b a) g Q.
Proof. intros HQ. apply HQ; reflexivity. Qed.

Lemma returns_resize (t : texid) (w h : Z) (g : gpu) (Q : texid -> gpu -> Prop) :
  (forall g',
      programs g' = programs g ->
      textures g' = <[t := {| width := w; height := h; data := fun _ _ => RGBA 0 0 0 0;
                              params := params (texture_of g t) |}]> (textures g) ->
      log g' = log g ++ [Resize t w h] ->
      Q t g') ->
  returns (resize t w h) g Q.
Proof. intros HQ. apply HQ; reflexivity. Qed.

Lemma texture_of_insert_eq (g g' : gpu) (t : texid) (image : texture) :
  textures g' = <[t := image]> (textures g) -> texture_of g' t = image.
Proof. intros Ht. unfold texture_of. rewrite Ht, lookup_insert_eq. reflexivity. Qed.

Lemma texture_of_insert_ne (g g' : gpu) (t u : texid) (image : texture) :
  textures g' = <[t := image]> (textures g) -> t <> u -> texture_of g' u = texture_of g u.
Proof. intros Ht Hne. unfold texture_of. rewrite Ht, lookup_insert_ne by exact Hne. reflexivity. Qed.

Lemma texture_of_same (g g' : gpu) (u : texid) :
  textures g' = textures g -> texture_of g' u = texture_of g u.
Proof. intros Ht. unfold texture_of. now rewrite Ht. Qed.

(** Writing an image that takes over the sampling parameters of the
    texture it replaces changes the sampling parameters of no texture. *)
Lemma sampling_kept_write (g g' : gpu) (t : texid) (image : texture) :
  textures g' = <[t := image]> (textures g) ->
  params image = params (texture_of g t) ->
  forall u, params (texture_of g' u) = params (texture_of g u).
Proof.
  intros Ht Hp u. destruct (decide (t = u)) as [<- | Hne].
  - now rewrite (texture_of_insert_eq _ _ _ _ Ht).
  - now rewrite (texture_of_insert_ne _ _ _ _ _ Ht Hne).
Qed.

Lemma sampling_kept_same (g g' : gpu) :
  textures g' = textures g ->
  forall u, params (texture_of g' u) = params (texture_of g u).
Proof. intros Ht u. now rewrite (texture_of_same _ _ _ Ht). Qed.

End GPUProperties.

Lemma returns_elim_value {A : Type} (m : M A) (g : gpu) (a : A) (Q : gpu -> Prop) :
  returns m g (fun r g' => r = a /\ Q g') -> exists g', m g = Ok (a, g') /\ Q g'.
Proof.
  intros Hr. apply returns_elim in Hr. destruct Hr as (r & g' & Hrun & -> & HQ). eauto.
Qed.

(** Looks a program up in the table, through the calls made so far. *)
Ltac program_table :=
  repeat match goal with
         | Hp : programs ?g = _ |- programs ?g _ = _ => rewrite Hp
         | |- configure _ ?p _ ?p = _ => apply configure_eq
         | |- configure _ _ _ _ = _ => rewrite configure_ne by discriminate
         end.

Section ZeroKeypoints.
Context `{Globals} `{Backend}.
Import SpeedyPipelineNodeKeypointDetector.

(** C5. [_encodeZeroKeypoints] runs one pass, the one that writes null
    keypoints, and none of the compaction passes; it returns the output
    texture, square, of side [encoderLength(0, descriptorSize, extraSize)],
    which is at least [MIN_ENCODER_LENGTH], with the null keypoint in every
    pixel. *)
Theorem encodeZeroKeypoints_all_null (this : node) (encodedKeypoints : texid)
    (descriptorSize extraSize : option Z) (g : gpu) :
  let side := encoderLength 0 (default 0 descriptorSize) (default 0 extraSize) in
  exists g',
    _encodeZeroKeypoints this encodedKeypoints descriptorSize extraSize g
      = Ok (encodedKeypoints, g')
    /\ width (texture_of g' encodedKeypoints) = side
    /\ height (texture_of g' encodedKeypoints) = side
    /\ MIN_ENCODER_LENGTH <= side
    /\ (forall x y, data (texture_of g' encodedKeypoints) x y = null_keypoint)
    /\ log g' = log g ++ [Run encodeNullKeypoints [] encodedKeypoints].
Proof.
  intros side.
  assert (Hr : returns (_encodeZeroKeypoints this encodedKeypoints descriptorSize extraSize) g
            (fun r g' => r = encodedKeypoints
               /\ texture_of g' encodedKeypoints
                  = rendered g encodeNullKeypoints [] side side encodedKeypoints
               /\ log g' = log g ++ [Run encodeNullKeypoints [] encodedKeypoints])).
  { unfold _encodeZeroKeypoints. fold side.
    apply returns_bind, returns_outputs. intros g1 Hp1 Ht1 Hl1.
    apply returns_bind.
    eapply returns_run; [rewrite Hp1; apply configure_eq | reflexivity |].
    intros g2 Hp2 Ht2 Hl2. apply returns_ret.
    split; [reflexivity |]. split.
    - rewrite (texture_of_insert_eq _ _ _ _ Ht2). unfold rendered.
      rewrite (texture_of_same g g1 _ Ht1). reflexivity.
    - now rewrite Hl2, Hl1. }
  apply returns_elim in Hr. destruct Hr as (r & g' & Hrun & -> & Htex & Hlog).
  exists g'. rewrite Htex. simpl.
  repeat split; try assumption. apply encoderLength_ge_min.
Qed.

End ZeroKeypoints.

(** ** The internal textures of a detector node *)

Lemma slice_internal_textures {A : Type} (own internal : list A) :
  length internal = NUMBER_OF_INTERNAL_TEXTURES ->
  slice (own ++ internal)
        (Z.of_nat (length (own ++ internal)) - Z.of_nat NUMBER_OF_INTERNAL_TEXTURES)
  = internal.
Proof.
  intros Hlen. unfold slice. rewrite length_app, Hlen.
  replace (Z.of_nat (length own + NUMBER_OF_INTERNAL_TEXTURES)
           - Z.of_nat NUMBER_OF_INTERNAL_TEXTURES) with (Z.of_nat (length own)) by lia.
  destruct (Z.ltb_spec (Z.of_nat (length own)) 0) as [Hneg | _]; [lia |].
  rewrite Z.min_l by lia. rewrite Nat2Z.id.
  apply drop_app_length.
Qed.

Section PrefixSumVariant.
Context `{Globals} `{Backend}.
Import SpeedyPipelineNodeKeypointDetector.

(** The doubling passes of the prefix-sum variant return, whatever their
    number, and keep the sampling parameters of every texture. *)
Lemma doubling_passes_return (stride : Z) (js : list Z) :
  forall (tables : texid * texid) (g : gpu) (w1 h1 w2 h2 : Z) (a b c d : texid) (i j : nat),
  programs g computeSumTable
    = Some {| out_width := w1; out_height := h1; out_textures := [a; b]; out_index := i |} ->
  programs g computeLookupOfLocations
    = Some {| out_width := w2; out_height := h2; out_textures := [c; d]; out_index := j |} ->
  (i < 2)%nat -> (j < 2)%nat ->
  returns
    (for_each js (fun i '(sumTable, lookupTable) =>
        let prevSumTable := sumTable in
        let blockSize := shl 1 i in
        sumTable ← run computeSumTable
                     [Tex prevSumTable; Num blockSize; Num (2 * blockSize); Num stride];
        lookupTable ← run computeLookupOfLocations
                        [Tex lookupTable; Tex sumTable; Tex prevSumTable;
                         Num blockSize; Num (2 * blockSize); Num stride];
        mret (sumTable, lookupTable)) tables) g
    (fun _ g' => forall u, params (texture_of g' u) = params (texture_of g u)).
Proof.
  induction js as [| k js IH]; intros [sumTable lookupTable] g w1 h1 w2 h2 a b c d i j Hs Hl Hi Hj.
  - intros u. reflexivity.
  - cbn [for_each]. apply returns_bind. cbv zeta.
    assert (Hout1 : exists out1, [a; b] !! i = Some out1).
    { destruct i as [| [| ?]]; [eexists; reflexivity .. | lia]. }
    destruct Hout1 as [out1 Hout1].
    assert (Hout2 : exists out2, [c; d] !! j = Some out2).
    { destruct j as [| [| ?]]; [eexists; reflexivity .. | lia]. }
    destruct Hout2 as [out2 Hout2].
    apply returns_bind.
    eapply returns_run; [exact Hs | exact Hout1 |]. intros g1 Hp1 Ht1 _.
    apply returns_bind.
    eapply returns_run;
      [rewrite Hp1, configure_ne by discriminate; exact Hl | exact Hout2 |].
    intros g2 Hp2 Ht2 _. apply returns_ret.
    eapply returns_mono.
    + eapply IH.
      * rewrite Hp2, configure_ne by discriminate. rewrite Hp1. apply configure_eq.
      * rewrite Hp2. apply configure_eq.
      * apply (Nat.mod_upper_bound (S i) 2). discriminate.
      * apply (Nat.mod_upper_bound (S j) 2). discriminate.
    + intros r g3 Hs3 u. cbv beta in Hs3.
      rewrite Hs3, (sampling_kept_write _ _ _ _ Ht2 eq_refl),
        (sampling_kept_write _ _ _ _ Ht1 eq_refl). reflexivity.
Qed.

(** C2, the prefix-sum side.  Whatever the corners texture holds,
    [_encodeKeypoints2] returns the output texture resized to the encoder
    length and cleared to the colour (1, 1, 1, 1): the tables it builds
    from the corners do not reach its result. *)
Theorem encodeKeypoints2_discards_corners (this : node) (corners encodedKeypoints : texid)
    (descriptorSize extraSize : option Z) (g : gpu)
    (own : list (option texid)) (t0 t1 t2 t3 t4 : texid) :
  _tex this = own ++ [Some t0; Some t1; Some t2; Some t3; Some t4] ->
  let side := encoderLength (_capacity this) (default 0 descriptorSize) (default 0 extraSize) in
  exists g',
    _encodeKeypoints2 this corners encodedKeypoints descriptorSize extraSize g
      = Ok (encodedKeypoints, g')
    /\ width (texture_of g' encodedKeypoints) = side
    /\ height (texture_of g' encodedKeypoints) = side
    /\ (forall x y, data (texture_of g' encodedKeypoints) x y = RGBA 255 255 255 255).
Proof.
  intros Htex side.
  assert (Hr : returns (_encodeKeypoints2 this corners encodedKeypoints descriptorSize extraSize) g
            (fun r g' => r = encodedKeypoints
               /\ width (texture_of g' encodedKeypoints) = side
               /\ height (texture_of g' encodedKeypoints) = side
               /\ data (texture_of g' encodedKeypoints)
                  = (fun _ _ => RGBA (255 * 1) (255 * 1) (255 * 1) (255 * 1)))).
  { unfold _encodeKeypoints2. fold side. cbv zeta.
    apply returns_bind, returns_get.
    rewrite Htex, slice_internal_textures by reflexivity.
    cbn [lookup list_lookup].
    apply returns_bind, returns_object.
    apply returns_bind, returns_outputs. intros g1 Hp1 _ _.
    apply returns_bind, returns_object.
    apply returns_bind, returns_outputs. intros g2 Hp2 _ _.
    apply returns_bind, returns_object.
    apply returns_bind, returns_outputs. intros g3 Hp3 _ _.
    apply returns_bind, returns_object.
    apply returns_bind, returns_outputs. intros g4 Hp4 _ _.
    apply returns_bind.
    eapply returns_run;
      [rewrite Hp4, configure_ne by discriminate; rewrite Hp3; apply configure_eq
      | reflexivity |].
    intros g5 Hp5 _ _.
    apply returns_bind.
    eapply returns_run;
      [rewrite Hp5, configure_ne by discriminate; rewrite Hp4, configure_ne by discriminate;
       rewrite Hp3, configure_ne by discriminate; rewrite Hp2, configure_ne by discriminate;
       rewrite Hp1; apply configure_eq
      | reflexivity |].
    intros g6 Hp6 _ _.
    apply returns_bind.
    eapply returns_mono.
    - unfold for_loop. eapply doubling_passes_return with (i := 0%nat) (j := 0%nat).
      + rewrite Hp6, configure_ne by discriminate. rewrite Hp5, configure_ne by discriminate.
        rewrite Hp4. apply configure_eq.
      + rewrite Hp6, configure_ne by discriminate. rewrite Hp5, configure_ne by discriminate.
        rewrite Hp4, configure_ne by discriminate. rewrite Hp3, configure_ne by discriminate.
        rewrite Hp2. apply configure_eq.
      + lia.
      + lia.
    - intros r g7 Hs7. cbv beta in Hs7 |- *.
      apply returns_bind, returns_resize. intros g8 _ Ht8 _.
      apply returns_clear. intros g9 _ Ht9 _.
      rewrite (texture_of_insert_eq _ _ _ _ Ht9). simpl.
      rewrite (texture_of_insert_eq _ _ _ _ Ht8). simpl.
      repeat split. }
  apply returns_elim in Hr. destruct Hr as (r & g' & Hrun & -> & Hw & Hh & Hd).
  exists g'. rewrite Hd. repeat split; assumption.
Qed.

End PrefixSumVariant.

Section SkipOffsetVariant.
Context `{Globals} `{Backend}.
Import SpeedyPipelineNodeKeypointDetector.

(** Runs [_encodeKeypoints] call by call on a node whose internal
    textures are known; the states are [g1], [g2], ... and every call
    leaves what it did to the program table ([Hp]), to the textures
    ([Ht]) and to the log ([Hl]). *)
Ltac encodeKeypoints_steps Htex :=
  unfold _encodeKeypoints; cbv zeta;
  apply returns_bind, returns_get;
  rewrite Htex, slice_internal_textures by reflexivity;
  cbn [pop last take length Nat.pred lookup list_lookup];
  apply returns_bind, returns_object;
  apply returns_bind, returns_outputs; intros g1 Hp1 Ht1 Hl1;
  apply returns_bind, returns_object;
  apply returns_bind, returns_outputs; intros g2 Hp2 Ht2 Hl2;
  apply returns_bind, returns_object;
  apply returns_bind, returns_object;
  apply returns_bind, returns_outputs; intros g3 Hp3 Ht3 Hl3;
  apply returns_bind, returns_outputs; intros g4 Hp4 Ht4 Hl4;
  apply returns_bind, returns_object;
  apply returns_bind, returns_outputs; intros g5 Hp5 Ht5 Hl5;
  apply returns_bind;
  (eapply returns_run; [program_table | reflexivity |]); intros g6 Hp6 Ht6 Hl6;
  apply returns_bind;
  (eapply returns_run; [program_table | reflexivity |]); intros g7 Hp7 Ht7 Hl7;
  apply returns_bind; unfold for_loop;
  change (seqZ 0 LONG_SKIP_OFFSET_PASSES) with [0; 1]; cbn [for_each];
  apply returns_bind;
  (eapply returns_run; [program_table | reflexivity |]); intros g8 Hp8 Ht8 Hl8;
  apply returns_bind;
  (eapply returns_run; [program_table | reflexivity |]); intros g9 Hp9 Ht9 Hl9;
  apply returns_ret;
  apply returns_bind, returns_clear; intros g10 Hp10 Ht10 Hl10;
  apply returns_bind;
  change (seqZ 0 ENCODER_PASSES) with [0; 1; 2; 3]; cbn [for_each];
  apply returns_bind;
  (eapply returns_run; [program_table | reflexivity |]); intros g11 Hp11 Ht11 Hl11;
  apply returns_bind;
  (eapply returns_run; [program_table | reflexivity |]); intros g12 Hp12 Ht12 Hl12;
  apply returns_bind;
  (eapply returns_run; [program_table | reflexivity |]); intros g13 Hp13 Ht13 Hl13;
  apply returns_bind;
  (eapply returns_run; [program_table | reflexivity |]); intros g14 Hp14 Ht14 Hl14;
  apply returns_ret;
  (eapply returns_run; [program_table | reflexivity |]); intros g15 Hp15 Ht15 Hl15.

(** The calls [_encodeKeypoints] makes, in order. *)
Lemma encodeKeypoints_log (this : node) (corners encodedKeypoints : texid)
    (descriptorSize extraSize : option Z) (g : gpu)
    (own : list (option texid)) (t0 t1 t2 t3 t4 : texid) :
  _tex this = own ++ [Some t0; Some t1; Some t2; Some t3; Some t4] ->
  exists g',
    _encodeKeypoints this corners encodedKeypoints descriptorSize extraSize g
      = Ok (encodedKeypoints, g')
    /\ log g' = log g ++ encodeKeypoints_calls this g corners encodedKeypoints
                           descriptorSize extraSize t0 t1 t2 t3 t4.
Proof.
  intros Htex.
  apply returns_elim_value.
  encodeKeypoints_steps Htex.
  split; [reflexivity |].
  rewrite Hl15, Hl14, Hl13, Hl12, Hl11, Hl10, Hl9, Hl8, Hl7, Hl6, Hl5, Hl4, Hl3, Hl2, Hl1.
  repeat rewrite <- app_assoc. reflexivity.
Qed.

(** No call reads the texture it writes (section 3 of the specification),
    when the internal textures are distinct and neither the corners nor
    the output texture is one of them. *)
Lemma encodeKeypoints_no_feedback (this : node) (corners encodedKeypoints : texid)
    (descriptorSize extraSize : option Z) (g : gpu) (t0 t1 t2 t3 t4 : texid) :
  NoDup [t0; t1; t2; t3; t4] ->
  corners <> t4 -> encodedKeypoints <> t3 -> encodedKeypoints <> t4 ->
  Forall (fun ev => match ev with
                    | Run _ args out => Tex out ∉ args
                    | _ => True
                    end)
         (encodeKeypoints_calls this g corners encodedKeypoints descriptorSize extraSize
            t0 t1 t2 t3 t4).
Proof.
  intros Hnodup Hc He3 He4.
  repeat match goal with
         | Hn : NoDup (_ :: _) |- _ => apply NoDup_cons in Hn; destruct Hn
         end.
  repeat match goal with
         | Hin : _ ∉ _ :: _ |- _ => apply not_elem_of_cons in Hin; destruct Hin
         end.
  unfold encodeKeypoints_calls, position_call. cbv zeta.
  repeat constructor;
    repeat (apply not_elem_of_cons; split; [congruence |]); apply not_elem_of_nil.
Qed.

(** What the four position passes leave in the texture they end on: a
    pixel of a slot that one of the passes resolves holds the resolved
    position, computed from the skip offsets; any other pixel still holds
    the colour the texture was cleared to. *)
Lemma encodeKeypoints_positions (this : node) (corners encodedKeypoints : texid)
    (descriptorSize extraSize : option Z) (g : gpu)
    (own : list (option texid)) (t0 t1 t2 t3 t4 : texid) :
  _tex this = own ++ [Some t0; Some t1; Some t2; Some t3; Some t4] ->
  t0 <> t2 -> t0 <> t3 -> t2 <> t3 -> encodedKeypoints <> t0 -> encodedKeypoints <> t3 ->
  let d := default 0 descriptorSize in
  let e := default 0 extraSize in
  let side := encoderLength (_capacity this) d e in
  exists g',
    _encodeKeypoints this corners encodedKeypoints descriptorSize extraSize g
      = Ok (encodedKeypoints, g')
    /\ forall x y,
         data (texture_of g' t3) x y =
           if existsb (fun j => slot_in_pass j ENCODER_PASSES (slot_of_pixel d e side x y))
                      (seqZ 0 ENCODER_PASSES)
           then resolve_position
                  [KTex (texture_of g' t0);
                   KVec2 (width (texture_of g corners)) (height (texture_of g corners));
                   KNum (_capacity this); KNum d; KNum e; KNum side] x y
           else RGBA 0 0 0 0.
Proof.
  intros Htex H02 H03 H23 He0 He3 d e side.
  apply returns_elim_value.
  encodeKeypoints_steps Htex.
  split; [reflexivity |].
  fold d e side in Ht11, Ht12, Ht13, Ht14.
  set (w := width (texture_of g corners)) in *.
  set (h := height (texture_of g corners)) in *.
  set (offsets := texture_of g9 t0).
  assert (H10 : texture_of g10 t0 = offsets)
    by (rewrite (texture_of_insert_ne _ _ _ _ _ Ht10) by congruence; reflexivity).
  assert (H11 : texture_of g11 t0 = offsets)
    by (rewrite (texture_of_insert_ne _ _ _ _ _ Ht11) by congruence; exact H10).
  assert (H12 : texture_of g12 t0 = offsets)
    by (rewrite (texture_of_insert_ne _ _ _ _ _ Ht12) by congruence; exact H11).
  assert (H13 : texture_of g13 t0 = offsets)
    by (rewrite (texture_of_insert_ne _ _ _ _ _ Ht13) by congruence; exact H12).
  assert (H14 : texture_of g14 t0 = offsets)
    by (rewrite (texture_of_insert_ne _ _ _ _ _ Ht14) by congruence; exact H13).
  assert (H15 : texture_of g15 t0 = offsets)
    by (rewrite (texture_of_insert_ne _ _ _ _ _ Ht15) by congruence; exact H14).
  intros x y. rewrite H15.
  rewrite (texture_of_insert_ne _ _ _ _ _ Ht15) by congruence.
  rewrite (texture_of_insert_eq _ _ _ _ Ht14).
  unfold rendered at 1. cbn [data kernel_of fmap list_fmap resolve_arg encodeKeypointPositions_kernel].
  rewrite H13, (texture_of_insert_eq _ _ _ _ Ht13).
  unfold rendered at 1. cbn [data kernel_of fmap list_fmap resolve_arg encodeKeypointPositions_kernel].
  rewrite H12, (texture_of_insert_eq _ _ _ _ Ht12).
  unfold rendered at 1. cbn [data kernel_of fmap list_fmap resolve_arg encodeKeypointPositions_kernel].
  rewrite H11, (texture_of_insert_eq _ _ _ _ Ht11).
  unfold rendered at 1. cbn [data kernel_of fmap list_fmap resolve_arg encodeKeypointPositions_kernel].
  rewrite H10, (texture_of_insert_eq _ _ _ _ Ht10).
  cbn [data].
  change (seqZ 0 ENCODER_PASSES) with [0; 1; 2; 3]. cbn [existsb].
  set (q := slot_of_pixel d e side x y).
  destruct (slot_in_pass 0 ENCODER_PASSES q), (slot_in_pass 1 ENCODER_PASSES q),
    (slot_in_pass 2 ENCODER_PASSES q), (slot_in_pass 3 ENCODER_PASSES q); reflexivity.
Qed.

(** The passes write pixels only: the sampling parameters of every
    texture are after [_encodeKeypoints] what they were before. *)
Lemma encodeKeypoints_keeps_sampling (this : node) (corners encodedKeypoints : texid)
    (descriptorSize extraSize : option Z) (g : gpu)
    (own : list (option texid)) (t0 t1 t2 t3 t4 : texid) :
  _tex this = own ++ [Some t0; Some t1; Some t2; Some t3; Some t4] ->
  exists g',
    _encodeKeypoints this corners encodedKeypoints descriptorSize extraSize g
      = Ok (encodedKeypoints, g')
    /\ forall u, params (texture_of g' u) = params (texture_of g u).
Proof.
  intros Htex.
  apply returns_elim_value.
  encodeKeypoints_steps Htex.
  split; [reflexivity |].
  intros u.
  rewrite (sampling_kept_write _ _ _ _ Ht15 eq_refl), (sampling_kept_write _ _ _ _ Ht14 eq_refl),
    (sampling_kept_write _ _ _ _ Ht13 eq_refl), (sampling_kept_write _ _ _ _ Ht12 eq_refl),
    (sampling_kept_write _ _ _ _ Ht11 eq_refl), (sampling_kept_write _ _ _ _ Ht10 eq_refl),
    (sampling_kept_write _ _ _ _ Ht9 eq_refl), (sampling_kept_write _ _ _ _ Ht8 eq_refl),
    (sampling_kept_write _ _ _ _ Ht7 eq_refl), (sampling_kept_write _ _ _ _ Ht6 eq_refl),
    (sampling_kept_same _ _ Ht5), (sampling_kept_same _ _ Ht4), (sampling_kept_same _ _ Ht3),
    (sampling_kept_same _ _ Ht2), (sampling_kept_same _ _ Ht1).
  reflexivity.
Qed.

(** C8. [_encodeKeypoints] calls the position-encoding program
    [ENCODER_PASSES] = 4 times, handing it the pass indices 0, 1, 2, 3 in
    turn and the pass count 4, and then calls the property-encoding
    program once, last.  When the shader resolves disjoint sets of slots
    under distinct pass indices, as the specification has it, no slot is
    resolved by two of the calls. *)
Theorem encodeKeypoints_passes (this : node) (corners encodedKeypoints : texid)
    (descriptorSize extraSize : option Z) (g : gpu)
    (own : list (option texid)) (t0 t1 t2 t3 t4 : texid) :
  _tex this = own ++ [Some t0; Some t1; Some t2; Some t3; Some t4] ->
  (forall numPasses j j' q,
      slot_in_pass j numPasses q = true -> slot_in_pass j' numPasses q = true -> j = j') ->
  exists g' calls before args,
    _encodeKeypoints this corners encodedKeypoints descriptorSize extraSize g
      = Ok (encodedKeypoints, g')
    /\ log g' = log g ++ calls
    /\ ENCODER_PASSES = 4
    /\ position_passes calls = (fun j => (j, ENCODER_PASSES)) <$> seqZ 0 ENCODER_PASSES
    /\ calls = before ++ [Run encodeKeypointProperties args encodedKeypoints]
    /\ position_passes before = position_passes calls
    /\ property_passes calls = 1%nat
    /\ (forall a b ja jb Pa Pb q,
          position_passes calls !! a = Some (ja, Pa) ->
          position_passes calls !! b = Some (jb, Pb) ->
          a <> b ->
          ~ (slot_in_pass ja Pa q = true /\ slot_in_pass jb Pb q = true)).
Proof.
  intros Htex Hdisjoint.
  destruct (encodeKeypoints_log this corners encodedKeypoints descriptorSize extraSize g
              own t0 t1 t2 t3 t4 Htex) as (g' & Hrun & Hlog).
  exists g', (encodeKeypoints_calls this g corners encodedKeypoints
                descriptorSize extraSize t0 t1 t2 t3 t4).
  exists (take 9 (encodeKeypoints_calls this g corners encodedKeypoints
                    descriptorSize extraSize t0 t1 t2 t3 t4)).
  exists [Tex t4; Tex t3; Num (default 0 descriptorSize); Num (default 0 extraSize);
          Num (encoderLength (_capacity this) (default 0 descriptorSize)
                 (default 0 extraSize))].
  split; [exact Hrun |]. split; [exact Hlog |].
  split; [reflexivity |]. split; [reflexivity |].
  split; [reflexivity |].
  split; [reflexivity |]. split; [reflexivity |].
  intros a b ja jb Pa Pb q Ha Hb Hab [Hsa Hsb].
  change (position_passes _) with [(0, 4); (1, 4); (2, 4); (3, 4)] in Ha, Hb.
  destruct a as [| [| [| [| a]]]]; destruct b as [| [| [| [| b]]]];
    try congruence; cbn in Ha, Hb; try discriminate;
    injection Ha as <- <-; injection Hb as <- <-;
    specialize (Hdisjoint _ _ _ _ Hsa Hsb); discriminate.
Qed.

End SkipOffsetVariant.

(** ** The life cycle of a detector node *)
Section LifeCycle.
Context `{Globals} `{Backend}.

Lemma returns_pool_allocate (g : gpu) (Q : texid -> gpu -> Prop) :
  (forall t g',
      (forall u, texture_of g' u = texture_of g u) ->
      log g' = log g ++ [PoolAllocate t] ->
      Q t g') ->
  returns pool_allocate g Q.
Proof.
  intros HQ. unfold returns, pool_allocate.
  destruct (pool g) as [| t free].
  - apply HQ; [| reflexivity].
    intros u. unfold texture_of. simpl.
    destruct (decide (fresh (dom (textures g)) = u)) as [<- | Hne].
    + rewrite lookup_insert_eq.
      pose proof (is_fresh (dom (textures g))) as Hfresh.
      apply not_elem_of_dom in Hfresh. rewrite Hfresh. reflexivity.
    + rewrite lookup_insert_ne by exact Hne. reflexivity.
  - apply HQ; [| reflexivity]. intros u. reflexivity.
Qed.

Lemma returns_pool_free (t : texid) (g : gpu) (Q : unit -> gpu -> Prop) :
  (forall g', textures g' = textures g -> log g' = log g ++ [PoolFree t] -> Q tt g') ->
  returns (pool_free t) g Q.
Proof. intros HQ. apply HQ; reflexivity. Qed.

(** [init] of the base class fills every slot with a texture of the pool
    and changes no texture. *)
Lemma node_init_returns (slots : list (option texid)) :
  forall g : gpu,
  returns (SpeedyPipelineNode.init slots) g (fun tex g' =>
    exists ts, tex = Some <$> ts /\ length ts = length slots
               /\ (forall u, texture_of g' u = texture_of g u)
               /\ log g' = log g ++ (PoolAllocate <$> ts)).
Proof.
  induction slots as [| slot slots IH]; intros g.
  - apply returns_ret. exists []. simpl. rewrite app_nil_r. auto.
  - cbn [SpeedyPipelineNode.init].
    apply returns_bind, returns_pool_allocate. intros t g1 Ht1 Hl1.
    apply returns_bind. eapply returns_mono; [apply IH |].
    intros tex g2 (ts & -> & Hlen & Ht2 & Hl2). apply returns_ret.
    exists (t :: ts). simpl. repeat split.
    + now rewrite Hlen.
    + intros u. now rewrite Ht2, Ht1.
    + rewrite Hl2, Hl1, <- app_assoc. reflexivity.
Qed.

(** [release] of the base class returns every texture to the pool, in
    the order of the slots, and changes no texture. *)
Lemma node_release_returns (ts : list texid) :
  forall g : gpu,
  returns (SpeedyPipelineNode.release (Some <$> ts)) g (fun tex g' =>
    tex = replicate (length ts) None
    /\ textures g' = textures g
    /\ log g' = log g ++ (PoolFree <$> ts)).
Proof.
  induction ts as [| t ts IH]; intros g.
  - apply returns_ret. simpl. rewrite app_nil_r. auto.
  - cbn [fmap list_fmap SpeedyPipelineNode.release].
    apply returns_bind, returns_pool_free. intros g1 Ht1 Hl1.
    apply returns_bind. eapply returns_mono; [apply IH |].
    intros tex g2 (-> & Ht2 & Hl2). apply returns_ret.
    simpl. repeat split.
    + now rewrite Ht2, Ht1.
    + rewrite Hl2, Hl1, <- app_assoc. reflexivity.
Qed.

Import SpeedyPipelineNodeKeypointDetector.

(** [_setupSpecialTexture(gl.TEXTURE_WRAP_S, param)] on a node that owns
    its textures: the wrap mode of the last one is replaced and the one
    it had is returned. *)
Lemma setupSpecialTexture_returns (this : node) (ts : list texid) (special : texid)
    (param : Z) (g : gpu) (Q : Z -> gpu -> Prop) :
  _tex this = Some <$> ts -> last ts = Some special ->
  (forall g',
      textures g' = <[special := with_wrap_s (texture_of g special) param]> (textures g) ->
      log g' = log g ++ [TexParameteri special TEXTURE_WRAP_S param] ->
      Q (wrap_s (params (texture_of g special))) g') ->
  returns (_setupSpecialTexture this TEXTURE_WRAP_S param) g Q.
Proof.
  intros Htex Hlast HQ. unfold _setupSpecialTexture.
  replace (_tex this !! (length (_tex this) - 1)%nat) with (Some (Some special)).
  2:{ rewrite Nat.sub_1_r, <- last_lookup, Htex, fmap_last, Hlast. reflexivity. }
  apply returns_bind, returns_object.
  unfold returns, mbind, gpu_bind, bindTexture, getTexParameter, texParameteri. simpl.
  apply HQ; reflexivity.
Qed.

(** A node that went through [init] has its five internal textures. *)
Lemma internal_textures_exist (ts : list texid) (n : nat) :
  length ts = (n + NUMBER_OF_INTERNAL_TEXTURES)%nat ->
  exists own t0 t1 t2 t3 t4,
    Some <$> ts = own ++ [Some t0; Some t1; Some t2; Some t3; Some t4].
Proof.
  intros Hlen. rewrite <- (take_drop n ts), fmap_app.
  assert (Hdrop : length (drop n ts) = NUMBER_OF_INTERNAL_TEXTURES)
    by (rewrite length_drop, Hlen; lia).
  destruct (drop n ts) as [| t0 [| t1 [| t2 [| t3 [| t4 [| t5 rest]]]]]];
    try discriminate Hdrop.
  exists (Some <$> take n ts), t0, t1, t2, t3, t4. reflexivity.
Qed.

(** [init] on a newly constructed node: the textures are allocated, the
    wrap mode of the last one is recorded and replaced by [REPEAT], and
    no other texture changes. *)
Lemma init_returns (texCount : option nat) (g0 : gpu) :
  exists (n1 : node) (g1 : gpu) (ts : list texid) (special : texid),
    init (new texCount) g0 = Ok (n1, g1)
    /\ _tex n1 = Some <$> ts /\ last ts = Some special
    /\ length ts = (default 0 texCount + NUMBER_OF_INTERNAL_TEXTURES)%nat
    /\ _oldWrapS n1 = wrap_s (params (texture_of g0 special))
    /\ texture_of g1 special = with_wrap_s (texture_of g0 special) REPEAT
    /\ (forall t, t <> special -> texture_of g1 t = texture_of g0 t).
Proof.
  assert (Hinit : returns (init (new texCount)) g0 (fun n1 g1 =>
            exists ts special,
              _tex n1 = Some <$> ts /\ last ts = Some special
              /\ length ts = (default 0 texCount + NUMBER_OF_INTERNAL_TEXTURES)%nat
              /\ _oldWrapS n1 = wrap_s (params (texture_of g0 special))
              /\ texture_of g1 special = with_wrap_s (texture_of g0 special) REPEAT
              /\ (forall t, t <> special -> texture_of g1 t = texture_of g0 t))).
  { unfold init. apply returns_bind.
    eapply returns_mono; [apply node_init_returns |].
    intros tex gA (ts & -> & Hlen & HtA & HlA). cbv zeta.
    assert (Hlast : exists special, last ts = Some special).
    { destruct (last ts) eqn:Hl; [eauto |].
      apply last_None in Hl. subst ts.
      unfold new, SpeedyPipelineNode.new in Hlen. simpl in Hlen.
      rewrite length_replicate in Hlen. unfold NUMBER_OF_INTERNAL_TEXTURES in Hlen. lia. }
    destruct Hlast as [special Hlast].
    apply returns_bind.
    eapply (setupSpecialTexture_returns _ ts special); [reflexivity | exact Hlast |].
    intros g1 Ht1 Hl1. apply returns_ret. exists ts, special. simpl.
    repeat split; try assumption.
    - rewrite Hlen. unfold new, SpeedyPipelineNode.new. simpl. apply length_replicate.
    - now rewrite HtA.
    - rewrite (texture_of_insert_eq _ _ _ _ Ht1). now rewrite HtA.
    - intros t Hne. rewrite (texture_of_insert_ne _ _ _ _ _ Ht1) by congruence. apply HtA. }
  apply returns_elim in Hinit.
  destruct Hinit as (n1 & g1 & Hrun1 & ts & special & Hfacts).
  exists n1, g1, ts, special. auto.
Qed.

(** [release] on a node that owns its textures: the recorded wrap mode is
    written to the last one, then the textures go back to the pool. *)
Lemma release_returns (this : node) (ts : list texid) (special : texid) (g : gpu) :
  _tex this = Some <$> ts -> last ts = Some special ->
  exists (n2 : node) (g2 : gpu),
    release this g = Ok (n2, g2)
    /\ textures g2 = <[special := with_wrap_s (texture_of g special) (_oldWrapS this)]>
                       (textures g)
    /\ log g2 = log g ++ TexParameteri special TEXTURE_WRAP_S (_oldWrapS this)
                         :: (PoolFree <$> ts).
Proof.
  intros Htex Hlast. apply returns_elim.
  unfold release. apply returns_bind.
  eapply (setupSpecialTexture_returns _ ts special); [exact Htex | exact Hlast |].
  intros gB HtB HlB. apply returns_bind. rewrite Htex.
  eapply returns_mono; [apply node_release_returns |].
  intros tex g2 (-> & Ht2 & Hl2). apply returns_ret. split.
  - now rewrite Ht2.
  - rewrite Hl2, HlB, <- app_assoc. reflexivity.
Qed.

(** Writing the recorded wrap mode back undoes the patch of [init]. *)
Lemma wrap_mode_written_back (g0 g1 g g2 : gpu) (special : texid) (old : Z) :
  old = wrap_s (params (texture_of g0 special)) ->
  texture_of g1 special = with_wrap_s (texture_of g0 special) REPEAT ->
  (forall t, t <> special -> texture_of g1 t = texture_of g0 t) ->
  (forall t, params (texture_of g t) = params (texture_of g1 t)) ->
  textures g2 = <[special := with_wrap_s (texture_of g special) old]> (textures g) ->
  forall t, params (texture_of g2 t) = params (texture_of g0 t).
Proof.
  intros -> Hspecial Hother Hkept Ht2 t.
  destruct (decide (special = t)) as [<- | Hne].
  - rewrite (texture_of_insert_eq _ _ _ _ Ht2).
    pose proof (Hkept special) as Hk. rewrite Hspecial in Hk.
    unfold with_wrap_s at 1. cbn [params]. rewrite Hk.
    cbn [params mag_filter min_filter wrap_t with_wrap_s].
    destruct (params (texture_of g0 special)). reflexivity.
  - rewrite (texture_of_insert_ne _ _ _ _ _ Ht2) by exact Hne.
    rewrite Hkept, Hother by congruence. reflexivity.
Qed.

(** C6. On a newly constructed detector node, [init] records the wrap mode
    of the special texture and sets it to [REPEAT].  From any later state
    in which the textures still have the sampling parameters [init] left
    them with, [release] first writes the recorded wrap mode back and then
    returns the textures of the node to the pool; after it every texture
    has, parameter for parameter, the sampling parameters it had before
    [init]. *)
Theorem release_restores_wrap_mode (texCount : option nat) (g0 : gpu) :
  exists (n1 : node) (g1 : gpu) (ts : list texid) (special : texid),
    init (new texCount) g0 = Ok (n1, g1)
    /\ _tex n1 = Some <$> ts /\ last ts = Some special
    /\ _oldWrapS n1 = wrap_s (params (texture_of g0 special))
    /\ wrap_s (params (texture_of g1 special)) = REPEAT
    /\ forall g : gpu,
         (forall t, params (texture_of g t) = params (texture_of g1 t)) ->
         exists (n2 : node) (g2 : gpu),
           release n1 g = Ok (n2, g2)
           /\ log g2 = log g ++ TexParameteri special TEXTURE_WRAP_S (_oldWrapS n1)
                                 :: (PoolFree <$> ts)
           /\ (forall t, params (texture_of g2 t) = params (texture_of g0 t)).
Proof.
  destruct (init_returns texCount g0)
    as (n1 & g1 & ts & special & Hinit & Htex & Hlast & Hlen & Hold & Hspecial & Hother).
  exists n1, g1, ts, special.
  split; [exact Hinit |]. split; [exact Htex |]. split; [exact Hlast |].
  split; [exact Hold |]. split; [rewrite Hspecial; reflexivity |].
  intros g Hkept.
  destruct (release_returns n1 ts special g Htex Hlast) as (n2 & g2 & Hrun & Ht2 & Hl2).
  exists n2, g2.
  split; [exact Hrun |]. split; [exact Hl2 |].
  exact (wrap_mode_written_back g0 g1 g g2 special _ Hold Hspecial Hother Hkept Ht2).
Qed.

(** The life of a detector node: [init], a run of the skip-offset encoder,
    [release].  None of the three throws, and at the end every texture
    has the sampling parameters it had at the start. *)
Corollary life_cycle_restores_sampling (texCount : option nat) (g0 : gpu)
    (corners encodedKeypoints : texid) (descriptorSize extraSize : option Z) :
  exists (n1 : node) (g1 g2 : gpu) (n3 : node) (g3 : gpu),
    init (new texCount) g0 = Ok (n1, g1)
    /\ _encodeKeypoints n1 corners encodedKeypoints descriptorSize extraSize g1
       = Ok (encodedKeypoints, g2)
    /\ release n1 g2 = Ok (n3, g3)
    /\ (forall t, params (texture_of g3 t) = params (texture_of g0 t)).
Proof.
  destruct (init_returns texCount g0)
    as (n1 & g1 & ts & special & Hinit & Htex & Hlast & Hlen & Hold & Hspecial & Hother).
  destruct (internal_textures_exist ts _ Hlen) as (own & t0 & t1 & t2 & t3 & t4 & Hts).
  pose proof Htex as Htex'. rewrite Hts in Htex'.
  destruct (encodeKeypoints_keeps_sampling n1 corners encodedKeypoints descriptorSize
              extraSize g1 own t0 t1 t2 t3 t4 Htex') as (g2 & Hencode & Hkept).
  destruct (release_returns n1 ts special g2 Htex Hlast) as (n3 & g3 & Hrun & Ht3 & _).
  exists n1, g1, g2, n3, g3.
  split; [exact Hinit |]. split; [exact Hencode |]. split; [exact Hrun |].
  exact (wrap_mode_written_back g0 g1 g2 g3 special _ Hold Hspecial Hother Hkept Ht3).
Qed.

End LifeCycle.

(** ** The theorems at the sample inputs *)

Lemma encodeKeypoints2_discards_corners_witness :
  exists g1 g2,
    @SpeedyPipelineNodeKeypointDetector._encodeKeypoints2 sample_globals sample_backend
      sample_node 6%positive 8%positive None None sample_gpu = Ok (8%positive, g1)
    /\ @SpeedyPipelineNodeKeypointDetector._encodeKeypoints2 sample_globals sample_backend
         sample_node 7%positive 8%positive None None sample_gpu = Ok (8%positive, g2)
    /\ width (@texture_of sample_backend g1 8%positive) = 64
    /\ forall x y,
         data (@texture_of sample_backend g1 8%positive) x y
         = data (@texture_of sample_backend g2 8%positive) x y.
Proof.
  destruct (@encodeKeypoints2_discards_corners sample_globals sample_backend
              sample_node 6%positive 8%positive None None sample_gpu
              [] 1%positive 2%positive 3%positive 4%positive 5%positive eq_refl)
    as (g1 & Hrun1 & Hw1 & _ & Hd1).
  destruct (@encodeKeypoints2_discards_corners sample_globals sample_backend
              sample_node 7%positive 8%positive None None sample_gpu
              [] 1%positive 2%positive 3%positive 4%positive 5%positive eq_refl)
    as (g2 & Hrun2 & _ & _ & Hd2).
  exists g1, g2.
  split; [exact Hrun1 |]. split; [exact Hrun2 |]. split; [exact Hw1 |].
  intros x y. rewrite Hd1, Hd2. reflexivity.
Defined.

Lemma encodeKeypoints_passes_witness :
  exists g' calls,
    @SpeedyPipelineNodeKeypointDetector._encodeKeypoints sample_globals sample_backend
      sample_node 6%positive 8%positive None None sample_gpu = Ok (8%positive, g')
    /\ log g' = calls
    /\ position_passes calls
       = [(0, 4); (1, 4); (2, 4); (3, 4)]
    /\ property_passes calls = 1%nat.
Proof.
  edestruct (@encodeKeypoints_passes sample_globals sample_backend
               sample_node 6%positive 8%positive None None sample_gpu
               [] 1%positive 2%positive 3%positive 4%positive 5%positive)
    as (g' & calls & before & args & Hrun & Hlog & _ & Hpos & _ & _ & Hprop & _).
  - reflexivity.
  - simpl. intros numPasses j j' q Hj Hj'. apply Z.eqb_eq in Hj, Hj'. lia.
  - exists g', calls.
    split; [exact Hrun |]. split; [exact Hlog |]. split; [exact Hpos | exact Hprop].
Defined.

Lemma release_restores_wrap_mode_witness :
  exists n1 g1 n2 g2,
    @SpeedyPipelineNodeKeypointDetector.init sample_backend
      (SpeedyPipelineNodeKeypointDetector.new None) sample_gpu = Ok (n1, g1)
    /\ @SpeedyPipelineNodeKeypointDetector.release sample_backend n1 g1 = Ok (n2, g2)
    /\ forall t, params (@texture_of sample_backend g2 t)
                 = params (@texture_of sample_backend sample_gpu t).
Proof.
  destruct (@release_restores_wrap_mode sample_backend None sample_gpu)
    as (n1 & g1 & ts & special & Hinit & _ & _ & _ & _ & Hrelease).
  destruct (Hrelease g1 (fun t => eq_refl)) as (n2 & g2 & Hrun & _ & Hparams).
  exists n1, g1, n2, g2.
  split; [exact Hinit |]. split; [exact Hrun | exact Hparams].
Defined.
